(** * Dependency miner: a shallow embedding of [scripts/dependency-miner.py]

    The script walks a commit history, extracts the dependency
    declarations of every modified [pom.xml] before and after the commit,
    compares the two snapshots and writes one CSV row per difference.

    Conventions of the embedding.
    - A Python [str] is a [string]; a character stands for the code point
      of the same number (0..255).  [None] is [None], so an optional text
      is an [option string].
    - A [dict] from dependency key to optional version is a
      [gmap string (option string)]; a [set] of strings is a [gset string].
    - A function that can raise returns a [result]; the exceptions that
      the code of the script can meet are listed in [exn].
    - The two external collaborators, lxml's [etree.fromstring] and the
      commit provider, are parameters of the functions that call them. *)

From Stdlib Require Import Ascii.
From stdpp Require Import gmap strings list fin_maps pretty.

#[local] Set Warnings "-register-all,-notation-for-abbreviation,-clear-no-such-hyp".
#[local] Arguments String.append !s1 s2 /.

(** ** Python strings *)

Module Py.

(** [str.isspace] on the code points below 256. *)
Definition isspace (c : ascii) : bool :=
  let n := nat_of_ascii c in
  ((9 <=? n) && (n <=? 13)) || ((28 <=? n) && (n <=? 32))
  || (n =? 133) || (n =? 160).

Fixpoint lstrip (s : string) : string :=
  match s with
  | String c s' => if isspace c then lstrip s' else s
  | EmptyString => EmptyString
  end.

Fixpoint rstrip (s : string) : string :=
  match s with
  | String c s' =>
      match rstrip s' with
      | EmptyString => if isspace c then EmptyString else String c EmptyString
      | r => String c r
      end
  | EmptyString => EmptyString
  end.

(** [s.strip()] *)
Definition strip (s : string) : string := rstrip (lstrip s).

(** Truth value of an optional text: [None] and [""] are false. *)
Definition truthy (t : option string) : bool :=
  match t with
  | Some (String _ _) => true
  | _ => false
  end.

(** [str(v)] as an f-string interpolates an optional text. *)
Definition format (v : option string) : string :=
  match v with
  | Some s => s
  | None => "None"
  end.

End Py.

(** ** The two patterns of the text scan

    [re.findall] and [re.search] try a match at every position from left
    to right.  The functions below are these scans, specialised to the
    three shapes of pattern that the script uses. *)

Module Re.

(** [starts_with p s] is the rest of [s] after the literal [p]. *)
Fixpoint starts_with (p s : string) : option string :=
  match p with
  | EmptyString => Some s
  | String a p' =>
      match s with
      | String b s' => if decide (a = b) then starts_with p' s' else None
      | EmptyString => None
      end
  end.

(** The lazy [(.*?)lit]: the shortest text before an occurrence of [lit],
    and what follows that occurrence. *)
Fixpoint lazy_until (lit s : string) : option (string * string) :=
  match starts_with lit s with
  | Some rest => Some (EmptyString, rest)
  | None =>
      match s with
      | String c s' =>
          match lazy_until lit s' with
          | Some (b, rest) => Some (String c b, rest)
          | None => None
          end
      | EmptyString => None
      end
  end.

(** The greedy [[^<]+] cannot give back a character to a literal that
    starts with [<], so it is the longest run without [<]. *)
Fixpoint run_not_lt (s : string) : string * string :=
  match s with
  | String c s' =>
      if decide (c = "<"%char) then (EmptyString, s)
      else let '(r, rest) := run_not_lt s' in (String c r, rest)
  | EmptyString => (EmptyString, EmptyString)
  end.

(** [<dependency>(.*?)</dependency>] with [re.DOTALL], anchored at the
    start of [s]: the group and the length of the whole match. *)
Definition match_dependency (s : string) : option (string * nat) :=
  match starts_with "<dependency>" s with
  | Some rest =>
      match lazy_until "</dependency>" rest with
      | Some (block, _) => Some (block, 12 + String.length block + 13)
      | None => None
      end
  | None => None
  end.

(** [re.findall(r"<dependency>(.*?)</dependency>", s, re.DOTALL)]:
    [skip] characters of a match just found are still to be passed. *)
Fixpoint findall_go (skip : nat) (s : string) : list string :=
  match s with
  | EmptyString => []
  | String _ s' =>
      match skip with
      | S k => findall_go k s'
      | O =>
          match match_dependency s with
          | Some (block, len) => block :: findall_go (pred len) s'
          | None => findall_go 0 s'
          end
      end
  end.

Definition findall_dependency (s : string) : list string := findall_go 0 s.

(** [<tag>([^<]+)</tag>] anchored at the start of [s]: the group. *)
Definition match_element (tag s : string) : option string :=
  match starts_with ("<" +:+ tag +:+ ">") s with
  | Some rest =>
      match run_not_lt rest with
      | (EmptyString, _) => None
      | (r, rest') =>
          match starts_with ("</" +:+ tag +:+ ">") rest' with
          | Some _ => Some r
          | None => None
          end
      end
  | None => None
  end.

(** [re.search(r"<tag>([^<]+)</tag>", s)]: group 1 of the leftmost match. *)
Fixpoint search_element (tag s : string) : option string :=
  match match_element tag s with
  | Some r => Some r
  | None =>
      match s with
      | String _ s' => search_element tag s'
      | EmptyString => None
      end
  end.

End Re.

(** ** Snapshots and the pattern-based extractor *)

Notation snapshot := (gmap string (option string)).

(** [f"{group_id}:{artifact_id}"] *)
Definition dependency_key (group_id artifact_id : string) : string :=
  group_id +:+ ":" +:+ artifact_id.

(** One turn of the loop of [_parse_dependency_blocks]. *)
Definition block_step (deps : snapshot) (block : string) : snapshot :=
  match Re.search_element "groupId" block,
        Re.search_element "artifactId" block,
        Re.search_element "version" block with
  | Some g, Some a, Some v =>
      <[dependency_key (Py.strip g) (Py.strip a) := Some (Py.strip v)]> deps
  | _, _, _ => deps
  end.

Definition _parse_dependency_blocks (pom_xml_text : option string) : snapshot :=
  match pom_xml_text with
  | None => ∅
  | Some text =>
      if negb (Py.truthy (Some text)) || negb (Py.truthy (Some (Py.strip text)))
      then ∅
      else foldl block_step ∅ (Re.findall_dependency text)
  end.

(** ** Exceptions *)

Inductive exn : Type :=
  | XMLSyntaxError   (* lxml: the text is not a well-formed document *)
  | AttributeError   (* [None.strip()] *)
  | KeyError.        (* [d[k]] for a key that [d] does not have *)

Inductive result (A : Type) : Type :=
  | Ok (a : A)
  | Raise (e : exn).
Arguments Ok {A} a.
Arguments Raise {A} e.

#[global] Instance result_ret : MRet result := fun A a => Ok a.
#[global] Instance result_bind : MBind result := fun A B f m =>
  match m with
  | Ok a => f a
  | Raise e => Raise e
  end.

#[global] Instance result_fmap : FMap result := fun A B f m =>
  match m with
  | Ok a => Ok (f a)
  | Raise e => Raise e
  end.

#[global] Instance exn_eq_dec : EqDecision exn.
Proof. solve_decision. Defined.

(** A [for] loop whose body can raise: the first exception ends it. *)
Fixpoint for_each {A S : Type} (body : S → A → result S) (st : S)
    (l : list A) : result S :=
  match l with
  | [] => Ok st
  | x :: l' => st' ← body st x; for_each body st' l'
  end.

(** ** The element tree of lxml

    Only what the script reads is kept: [tag] in Clark notation
    ([{uri}local], or [local] without a namespace), the entry of [nsmap]
    under [None] (the default namespace in scope), [text] (the text before
    the first child, [None] when there is none) and the child elements in
    document order. *)

Inductive Element : Type :=
  mkElement {
    tag : string;
    nsmap_None : option string;
    text : option string;
    children : list Element
  }.

(** [el.iter()]: the element and its descendants in document order. *)
Fixpoint iter (el : Element) : list Element :=
  el :: flat_map iter (children el).

(** [tree.findall(".//" + path)]: the descendants with this tag, in
    document order; the tree itself is not among them. *)
Definition findall (path : string) (tree : Element) : list Element :=
  filter (fun el => tag el = path) (flat_map iter (children tree)).

(** [el.find(path)]: the first child with this tag. *)
Definition find (path : string) (el : Element) : option Element :=
  head (filter (fun c => tag c = path) (children el)).

(** ** The structural extractor *)

(** The path of an element name: ["m:name"] under [{"m": namespace}] is
    the Clark name, and the bare name is itself. *)
Definition qualified (namespace : option string) (name : string) : string :=
  match namespace with
  | Some uri => if Py.truthy namespace then "{" +:+ uri +:+ "}" +:+ name else name
  | None => name
  end.

(** [el.text.strip()] *)
Definition text_strip (el : Element) : result string :=
  match text el with
  | Some t => Ok (Py.strip t)
  | None => Raise AttributeError
  end.

(** One turn of the loop of [_parse_pom_dependencies]. *)
Definition dependency_step (namespace : option string)
    (dependencies : snapshot) (dep : Element) : result snapshot :=
  let group := find (qualified namespace "groupId") dep in
  let artifact := find (qualified namespace "artifactId") dep in
  let version := find (qualified namespace "version") dep in
  match group, artifact with
  | Some group, Some artifact =>
      group_id ← text_strip group;
      artifact_id ← text_strip artifact;
      version_text ← match version with
                      | Some version => Some <$> text_strip version
                      | None => Ok None
                      end;
      Ok (<[dependency_key group_id artifact_id := version_text]> dependencies)
  | _, _ => Ok dependencies
  end.

(** The body of [_parse_pom_dependencies] from the parsed tree on. *)
Definition tree_dependencies (tree : Element) : result snapshot :=
  let namespace := nsmap_None tree in
  for_each (dependency_step namespace) ∅
    (findall (qualified namespace "dependency") tree).

Section Extractor.

(** [etree.fromstring(text.encode())] *)
Variable fromstring : string → result Element.

Definition _parse_pom_dependencies (pom_xml_text : option string)
    : result snapshot :=
  match pom_xml_text with
  | Some text =>
      if negb (Py.truthy pom_xml_text) then Ok ∅
      else tree ← fromstring text; tree_dependencies tree
  | None => Ok ∅
  end.

End Extractor.

(** ** A reader for a fragment of XML

    [etree.fromstring] is lxml's; the extractor above takes it as a
    parameter.  To run the extractor on concrete texts, [Lxml.fromstring]
    reads the following fragment of XML 1.0 the way lxml does: elements
    with unprefixed names, at most one attribute per start tag, which must
    be [xmlns] with an absolute URI as its value (a scheme, a colon, then
    letters, digits and the characters [-], [.], [_], [~] and [/]), and
    character data made of tabs, line feeds and the printable ASCII
    characters other than [<], [>] and [&].  There is no declaration,
    comment, processing instruction, CDATA section or entity reference.  On
    a text outside the fragment the reader answers [Raise XMLSyntaxError],
    which for that text says nothing about lxml. *)

Module Lxml.

Inductive token : Type :=
  | TStart (name : string) (xmlns : option string)
  | TEmptyElem (name : string) (xmlns : option string)
  | TEnd (name : string)
  | TChars (s : string).

Fixpoint span (p : ascii → bool) (s : string) : string * string :=
  match s with
  | String c s' =>
      if p c then let '(r, rest) := span p s' in (String c r, rest)
      else (EmptyString, s)
  | EmptyString => (EmptyString, EmptyString)
  end.

Definition between (lo hi : nat) (c : ascii) : bool :=
  (lo <=? nat_of_ascii c) && (nat_of_ascii c <=? hi).

Definition is_S (c : ascii) : bool :=
  bool_decide (c = " "%char) || bool_decide (c = "009"%char)
  || bool_decide (c = "010"%char).

Definition name_start (c : ascii) : bool :=
  between 65 90 c || between 97 122 c || bool_decide (c = "_"%char).

Definition name_char (c : ascii) : bool :=
  name_start c || between 48 57 c || bool_decide (c = "."%char)
  || bool_decide (c = "-"%char).

Definition char_data (c : ascii) : bool :=
  (between 32 126 c || bool_decide (c = "009"%char)
   || bool_decide (c = "010"%char))
  && negb (bool_decide (c = "<"%char)) && negb (bool_decide (c = ">"%char))
  && negb (bool_decide (c = "&"%char)).

Definition skip_S (s : string) : string := (span is_S s).2.

(** A name, at the start of [s]. *)
Definition lex_name (s : string) : option (string * string) :=
  match s with
  | String c _ =>
      if name_start c then Some (span name_char s) else None
  | EmptyString => None
  end.

(** A quoted attribute value, at the start of [s]. *)
Definition lex_value (s : string) : option (string * string) :=
  match s with
  | String q s' =>
      if bool_decide (q = "034"%char) || bool_decide (q = "'"%char) then
        match span (fun c => between 32 126 c && char_data c
                             && negb (bool_decide (c = q))) s' with
        | (String c v, String q' rest) =>
            if bool_decide (q' = q) then Some (String c v, rest) else None
        | _ => None
        end
      else None
  | EmptyString => None
  end.

(** The namespace names of the fragment: [scheme ":" path], the scheme a
    letter followed by letters, digits, [+], [-] and [.], the path made of
    unreserved characters and [/]. *)
Definition scheme_char (c : ascii) : bool :=
  between 65 90 c || between 97 122 c || between 48 57 c
  || bool_decide (c = "+"%char) || bool_decide (c = "-"%char)
  || bool_decide (c = "."%char).

Definition uri_char (c : ascii) : bool :=
  name_char c || bool_decide (c = "~"%char) || bool_decide (c = "/"%char).

Definition absolute_uri (v : string) : bool :=
  match v with
  | String c _ =>
      (between 65 90 c || between 97 122 c)
      && match span scheme_char v with
         | (_, String ":" path) =>
             match span uri_char path with
             | (_, EmptyString) => true
             | _ => false
             end
         | _ => false
         end
  | EmptyString => false
  end.

(** The end of a start tag: [>] or [/>]. *)
Definition lex_tag_end (name : string) (xmlns : option string) (s : string)
    : option (token * string) :=
  match s with
  | String ">" rest => Some (TStart name xmlns, rest)
  | String "/" (String ">" rest) => Some (TEmptyElem name xmlns, rest)
  | _ => None
  end.

(** A tag, after its [<]. *)
Definition lex_tag (s : string) : option (token * string) :=
  match s with
  | String "/" s' =>
      match lex_name s' with
      | Some (name, rest) =>
          match skip_S rest with
          | String ">" rest' => Some (TEnd name, rest')
          | _ => None
          end
      | None => None
      end
  | _ =>
      match lex_name s with
      | Some (name, rest) =>
          match span is_S rest with
          | (EmptyString, rest') => lex_tag_end name None rest'
          | (_, rest') =>
              match Re.starts_with "xmlns" rest' with
              | Some rest'' =>
                  match skip_S rest'' with
                  | String "=" rest3 =>
                      match lex_value (skip_S rest3) with
                      | Some (uri, rest4) =>
                          if absolute_uri uri then
                            lex_tag_end name (Some uri) (skip_S rest4)
                          else None
                      | None => None
                      end
                  | _ => None
                  end
              | None => lex_tag_end name None rest'
              end
          end
      | None => None
      end
  end.

Fixpoint lex (fuel : nat) (s : string) : option (list token) :=
  match s with
  | EmptyString => Some []
  | String c s' =>
      match fuel with
      | O => None
      | S fuel' =>
          if bool_decide (c = "<"%char) then
            match lex_tag s' with
            | Some (tok, rest) => cons tok <$> lex fuel' rest
            | None => None
            end
          else
            match span char_data s with
            | (EmptyString, _) => None
            | (chars, rest) => cons (TChars chars) <$> lex fuel' rest
            end
      end
  end.

(** An element under construction. *)
Record frame : Type := mkFrame {
  f_name : string;
  f_ns : option string;
  f_text : option string;
  f_children : list Element   (* youngest first *)
}.

(** The tag of an element named [name] under the default namespace [ns]. *)
Definition clark (ns : option string) (name : string) : string :=
  match ns with
  | Some uri => "{" +:+ uri +:+ "}" +:+ name
  | None => name
  end.

Definition close_frame (f : frame) : Element :=
  mkElement (clark (f_ns f) (f_name f)) (f_ns f) (f_text f)
    (rev (f_children f)).

Definition add_child (el : Element) (f : frame) : frame :=
  mkFrame (f_name f) (f_ns f) (f_text f) (el :: f_children f).

Definition add_chars (s : string) (f : frame) : frame :=
  match f_children f with
  | [] => mkFrame (f_name f) (f_ns f)
            (Some (from_option (fun t => t +:+ s) s (f_text f))) []
  | _ :: _ => f   (* the tail of the youngest child, which nothing reads *)
  end.

Definition all_S (s : string) : bool :=
  match skip_S s with
  | EmptyString => true
  | _ => false
  end.

(** The document so far: the open elements, innermost first, and the root
    once it is closed. *)
Definition build_step (st : list frame * option Element) (tok : token)
    : option (list frame * option Element) :=
  let '(stack, root) := st in
  let scope := match stack with
               | f :: _ => f_ns f
               | [] => None
               end in
  let finish el :=
    match stack with
    | f :: stack' => Some (add_child el f :: stack', root)
    | [] => Some ([], Some el)
    end in
  match root, tok with
  | Some _, TChars s => if all_S s then Some st else None
  | Some _, _ => None
  | None, TChars s =>
      match stack with
      | f :: stack' => Some (add_chars s f :: stack', root)
      | [] => if all_S s then Some st else None
      end
  | None, TStart name xmlns =>
      Some (mkFrame name (from_option Some scope xmlns) None [] :: stack, root)
  | None, TEmptyElem name xmlns =>
      finish (close_frame (mkFrame name (from_option Some scope xmlns) None []))
  | None, TEnd name =>
      match stack with
      | f :: stack' =>
          if bool_decide (f_name f = name) then
            match stack' with
            | g :: stack'' => Some (add_child (close_frame f) g :: stack'', root)
            | [] => Some ([], Some (close_frame f))
            end
          else None
      | [] => None
      end
  end.

Fixpoint build (st : list frame * option Element) (toks : list token)
    : option Element :=
  match toks with
  | [] => match st with
          | ([], Some root) => Some root
          | _ => None
          end
  | tok :: toks' =>
      match build_step st tok with
      | Some st' => build st' toks'
      | None => None
      end
  end.

Definition fromstring (text : string) : result Element :=
  match lex (String.length text) text with
  | Some toks =>
      match build ([], None) toks with
      | Some root => Ok root
      | None => Raise XMLSyntaxError
      end
  | None => Raise XMLSyntaxError
  end.

End Lxml.

(** ** The commit provider

    What the script reads of PyDriller's commits and modified files. *)

Module PyDriller.

Record ModifiedFile : Type := {
  filename : string;
  source_code_before : option string;
  source_code : option string
}.

Record Developer : Type := { name : string }.

(** A [datetime], kept as the text that [isoformat()] returns. *)
Record datetime : Type := { isoformat : string }.

Record Commit : Type := {
  hash : string;
  committer_date : datetime;
  author : Developer;
  modified_files : list ModifiedFile
}.

End PyDriller.

(** Python does not fix the order in which a [for] loop visits a set. *)
Class SetOrder : Type := {
  set_iter : gset string → list string;
  set_iter_perm : ∀ s, set_iter s ≡ₚ elements s
}.

#[global] Program Instance elements_order : SetOrder := {| set_iter := elements |}.
Next Obligation. reflexivity. Qed.

(** ** The traversal driver *)

(** [rows] and [commits_with_changes] *)
Record mining : Type := mkMining {
  rows : list (list string);
  commits_with_changes : gset string
}.

(** [rows.append([...]); commits_with_changes.add(commit.hash)] *)
Definition record_change (commit : PyDriller.Commit) (change_type : string)
    (st : mining) (dep : string) : mining :=
  mkMining
    (rows st ++ [[PyDriller.hash commit;
                  PyDriller.isoformat (PyDriller.committer_date commit);
                  PyDriller.name (PyDriller.author commit);
                  dep;
                  change_type]])
    ({[PyDriller.hash commit]} ∪ commits_with_changes st).

(** [d[k]] *)
Definition subscript (d : snapshot) (k : string) : result (option string) :=
  match d !! k with
  | Some v => Ok v
  | None => Raise KeyError
  end.

Section Driver.

Context `{SetOrder}.

(** The body of the third loop. *)
Definition record_if_changed (commit : PyDriller.Commit)
    (old_deps new_deps : snapshot) (st : mining) (dep : string)
    : result mining :=
  old_v ← subscript old_deps dep;
  new_v ← subscript new_deps dep;
  if decide (old_v ≠ new_v) then
    Ok (record_change commit
          ("changed from " +:+ Py.format old_v +:+ " to " +:+ Py.format new_v)
          st dep)
  else Ok st.

(** The three loops over the key sets of the two snapshots. *)
Definition compare_snapshots (commit : PyDriller.Commit)
    (old_deps new_deps : snapshot) (st : mining) : result mining :=
  let st := foldl (record_change commit "added") st
              (set_iter (dom new_deps ∖ dom old_deps)) in
  let st := foldl (record_change commit "removed") st
              (set_iter (dom old_deps ∖ dom new_deps)) in
  for_each (record_if_changed commit old_deps new_deps) st
    (set_iter (dom old_deps ∩ dom new_deps)).

(** [etree.fromstring(text.encode())] *)
Variable fromstring : string → result Element.

(** The body of the loop over the modified files of a commit. *)
Definition mine_file (commit : PyDriller.Commit) (st : mining)
    (modification : PyDriller.ModifiedFile) : result mining :=
  if decide (PyDriller.filename modification ≠ "pom.xml") then Ok st
  else
    old_deps ← _parse_pom_dependencies fromstring
                 (PyDriller.source_code_before modification);
    new_deps ← _parse_pom_dependencies fromstring
                 (PyDriller.source_code modification);
    compare_snapshots commit old_deps new_deps st.

Definition mine_commit (st : mining) (commit : PyDriller.Commit)
    : result mining :=
  for_each (mine_file commit) st (PyDriller.modified_files commit).

Definition mine_commits (commits : list PyDriller.Commit) : result mining :=
  for_each mine_commit (mkMining [] ∅) commits.

End Driver.

(** ** The report writer *)

(** [csv.writer(f)] with its default dialect: comma, double quote,
    minimal quoting, rows ended by CR LF. *)
Module Csv.

Definition quotechar : ascii := "034"%char.
Definition lineterminator : string := String "013" (String "010" EmptyString).

Definition special (c : ascii) : bool :=
  bool_decide (c = ","%char) || bool_decide (c = quotechar)
  || bool_decide (c = "013"%char) || bool_decide (c = "010"%char).

Fixpoint any (p : ascii → bool) (s : string) : bool :=
  match s with
  | String c s' => p c || any p s'
  | EmptyString => false
  end.

Fixpoint doublequote (s : string) : string :=
  match s with
  | String c s' =>
      if bool_decide (c = quotechar) then String c (String c (doublequote s'))
      else String c (doublequote s')
  | EmptyString => EmptyString
  end.

Definition field (s : string) : string :=
  if any special s
  then String quotechar (doublequote s +:+ String quotechar EmptyString)
  else s.

Fixpoint join (fields : list string) : string :=
  match fields with
  | [] => EmptyString
  | [f] => f
  | f :: fields' => f +:+ "," +:+ join fields'
  end.

Definition writerow (row : list string) : string :=
  match row with
  | [EmptyString] => String quotechar (String quotechar lineterminator)
  | _ => join (field <$> row) +:+ lineterminator
  end.

Fixpoint writerows (rows : list (list string)) : string :=
  match rows with
  | [] => EmptyString
  | row :: rows' => writerow row +:+ writerows rows'
  end.

End Csv.

(** What [open(output_filename, "w", newline="", encoding="utf-8")] and the
    writes to it leave behind. *)
Record file : Type := {
  file_name : string;
  file_mode : string;
  file_newline : string;
  file_encoding : string;
  file_content : string
}.

(** A run prints its lines and either writes the report or is ended by an
    exception, before the report is opened. *)
Inductive outcome : Type :=
  | Completed (stdout : list string) (report : file)
  | Aborted (stdout : list string) (e : exn).

Definition header : list string :=
  ["commit_hash"; "commit_date"; "commit_author"; "dependency"; "change_type"].

Definition line_feed : string := String "010" EmptyString.

Section Main.

Context `{SetOrder}.
Variable fromstring : string → result Element.

(** [Repository(repo_url).traverse_commits()] *)
Variable Repository : string → list PyDriller.Commit.

Definition mine_repository (owner repo : string) : outcome :=
  let repo_url := "https://github.com/" +:+ owner +:+ "/" +:+ repo in
  let stdout :=
    ["Analyzing repository: " +:+ owner +:+ "/" +:+ repo;
     "URL: " +:+ repo_url;
     "This may take a few minutes..." +:+ line_feed] in
  match mine_commits fromstring (Repository repo_url) with
  | Raise e => Aborted stdout e
  | Ok st =>
      let output_filename := owner +:+ "_" +:+ repo +:+ "_dependency_commits.csv" in
      let f := {| file_name := output_filename;
                  file_mode := "w";
                  file_newline := "";
                  file_encoding := "utf-8";
                  file_content := Csv.writerow header +:+ Csv.writerows (rows st) |} in
      let count := pretty (size (commits_with_changes st)) in
      Completed
        (stdout ++
         ["Results:";
          "Number of commits with dependency changes: " +:+ count;
          "Commit list saved to: " +:+ output_filename;
          "Repository: " +:+ owner +:+ "/" +:+ repo;
          "Commits with dependency changes: " +:+ count;
          line_feed +:+ "Commit list saved to: " +:+ output_filename])
        f
  end.

End Main.

(** ** The entry point *)

(** How the process of the script ends: [main] returns, or [sys.exit]
    ends it with a status. *)
Inductive process : Type :=
  | Returned (run : outcome)
  | SystemExit (stdout : list string) (status : nat).

Section EntryPoint.

Context `{SetOrder}.
Variable fromstring : string → result Element.
Variable Repository : string → list PyDriller.Commit.

(** [main()], with [sys.argv] as its argument.  Behind the test on the
    length both subscripts are in range. *)
Definition main (argv : list string) : process :=
  if decide (length argv ≠ 3) then
    SystemExit
      ["Usage: python dependency-miner.py <owner> <repo>";
       "Example: python dependency-miner.py pac4j dropwizard-pac4j"]
      1
  else
    let owner := argv !!! 1 in
    let repo := argv !!! 2 in
    Returned (mine_repository fromstring Repository owner repo).

End EntryPoint.

(** * The vocabulary of the statements

    Names for what the statements below speak of.  Nothing here is part of
    the script; each definition is either a view of a function of the
    script or a description of a family of inputs. *)

(** ** Change records *)

(** The record of one change. *)
Definition change_record (commit : PyDriller.Commit) (change_type dep : string)
    : list string :=
  [PyDriller.hash commit;
   PyDriller.isoformat (PyDriller.committer_date commit);
   PyDriller.name (PyDriller.author commit);
   dep;
   change_type].

(** The records about the dependency key [k] among [emitted]. *)
Definition records_of (k : string) (emitted : list (list string))
    : list (list string) :=
  filter (fun row => row !! 3 = Some k) emitted.

(** [f"changed from {old_v} to {new_v}"] *)
Definition changed_from_to (old_v new_v : option string) : string :=
  "changed from " +:+ Py.format old_v +:+ " to " +:+ Py.format new_v.

(** The outcome of the comparison for one key. *)
Definition classified (commit : PyDriller.Commit) (old_deps new_deps : snapshot)
    (k : string) : list (list string) :=
  match old_deps !! k, new_deps !! k with
  | None, Some _ => [change_record commit "added" k]
  | Some _, None => [change_record commit "removed" k]
  | Some old_v, Some new_v =>
      if decide (old_v = new_v) then []
      else [change_record commit (changed_from_to old_v new_v) k]
  | None, None => []
  end.

(** [row] was appended while [commit] was processed. *)
Definition record_of_commit (commit : PyDriller.Commit) (row : list string)
    : Prop :=
  ∃ change_type dep, row = change_record commit change_type dep.

(** [commits_with_changes] after [emitted] was appended for [commit]. *)
Definition touched (commit : PyDriller.Commit) (emitted : list (list string))
    (s : gset string) : gset string :=
  match emitted with
  | [] => s
  | _ :: _ => {[PyDriller.hash commit]} ∪ s
  end.

(** ** The traversal *)

(** The first field of a record. *)
Definition row_hash (row : list string) : option string := row !! 0.

(** What a state [st'] reached from [st] has gained for [commit]. *)
Definition gained (commit : PyDriller.Commit) (st st' : mining)
    (emitted : list (list string)) : Prop :=
  st' = mkMining (rows st ++ emitted)
          (touched commit emitted (commits_with_changes st))
  ∧ Forall (record_of_commit commit) emitted.

(** The set of commit identifiers is the set of the hashes in [rows]. *)
Definition hashes_of_rows (st : mining) : Prop :=
  commits_with_changes st = list_to_set (omap row_hash (rows st)).

(** The modified file is a descriptor. *)
Definition is_pom (modification : PyDriller.ModifiedFile) : Prop :=
  PyDriller.filename modification = "pom.xml".

#[global] Instance is_pom_dec modification : Decision (is_pom modification).
Proof. unfold is_pom. apply _. Defined.

(** ** The report *)

(** The header row as the CSV writer renders it. *)
Definition header_line : string :=
  "commit_hash,commit_date,commit_author,dependency,change_type"
  +:+ Csv.lineterminator.

(** [f"https://github.com/{owner}/{repo}"] *)
Definition repo_url (owner repo : string) : string :=
  "https://github.com/" +:+ owner +:+ "/" +:+ repo.

(** ** The entries of the structural extractor *)

(** The key and version that one turn of the loop assigns for the entry
    [dep]; [None] when the turn assigns nothing. *)
Definition declared (namespace : option string) (dep : Element)
    : option (string * option string) :=
  match dependency_step namespace ∅ dep with
  | Ok d => head (map_to_list d)
  | Raise _ => None
  end.

(** The entry has both identifier elements. *)
Definition has_identifiers (namespace : option string) (dep : Element) : Prop :=
  find (qualified namespace "groupId") dep ≠ None
  ∧ find (qualified namespace "artifactId") dep ≠ None.

#[global] Instance has_identifiers_dec namespace dep :
  Decision (has_identifiers namespace dep).
Proof. unfold has_identifiers. apply _. Defined.


(** The three ways a turn of the loop can go. *)
Inductive turn (namespace : option string) (dep : Element) : Prop :=
  | turn_skip :
      ¬ has_identifiers namespace dep →
      (∀ d, dependency_step namespace d dep = Ok d) →
      declared namespace dep = None →
      turn namespace dep
  | turn_assign k v :
      has_identifiers namespace dep →
      (∀ d, dependency_step namespace d dep = Ok (<[k:=v]> d)) →
      declared namespace dep = Some (k, v) →
      (find (qualified namespace "version") dep = None → v = None) →
      turn namespace dep
  | turn_raise :
      has_identifiers namespace dep →
      (∀ d, dependency_step namespace d dep = Raise AttributeError) →
      declared namespace dep = None →
      turn namespace dep.

(** ** What the patterns pass over *)

(** A text without [<]. *)
Fixpoint plain (s : string) : bool :=
  match s with
  | String c s' => negb (bool_decide (c = "<"%char)) && plain s'
  | EmptyString => true
  end.

(** [w] holds no start of [lit] that a later text could complete. *)
Definition unmatched (lit w : string) : Prop :=
  ∀ s b r, Re.lazy_until lit s = Some (b, r) →
           Re.lazy_until lit (w +:+ s) = Some (w +:+ b, r).

(** [w] holds no start of a match of the block pattern. *)
Definition inert (w : string) : Prop :=
  ∀ s, Re.findall_go 0 (w +:+ s) = Re.findall_go 0 s.

(** [w] holds no start of a match of the pattern of the element [tag]. *)
Definition passed (tag w : string) : Prop :=
  ∀ s, Re.search_element tag (w +:+ s) = Re.search_element tag s.

(** ** Canonical documents *)

(** An entry of a canonical document: the text of its elements and the
    gaps, the text between the tags, such as line breaks and indentation. *)
Record canonical_entry : Type := {
  ce_gap0 : string;
  ce_group : string;
  ce_gap1 : string;
  ce_artifact : string;
  ce_gap2 : string;
  ce_version : option string;
  ce_gap3 : string;   (* behind the version, when there is one *)
  ce_gap4 : string
}.

(** A canonical document: a root element [project], with or without
    default namespace, around an element [dependencies] whose children are
    [dependency] entries; every entry has a group identifier and an
    artifact identifier, followed or not by a version. *)
Record canonical : Type := {
  c_xmlns : option string;
  c_gap0 : string;
  c_gap1 : string;
  c_entries : list canonical_entry;
  c_gap2 : string
}.

(** The version element of an entry and the gap behind it. *)
Definition version_part (e : canonical_entry) : string :=
  match ce_version e with
  | Some v => "<version>" +:+ v +:+ "</version>" +:+ ce_gap3 e
  | None => ""
  end.

(** The text between [<dependency>] and [</dependency>]. *)
Definition block (e : canonical_entry) : string :=
  ce_gap0 e +:+ "<groupId>" +:+ ce_group e +:+ "</groupId>" +:+ ce_gap1 e
  +:+ "<artifactId>" +:+ ce_artifact e +:+ "</artifactId>" +:+ ce_gap2 e
  +:+ version_part e.

(** The entries, followed by [tail]. *)
Fixpoint render_entries (es : list canonical_entry) (tail : string) : string :=
  match es with
  | [] => tail
  | e :: es' =>
      "<dependency>" +:+ block e +:+ "</dependency>" +:+ ce_gap4 e
      +:+ render_entries es' tail
  end.

(** The declaration of the default namespace in the start tag. *)
Definition xmlns_attribute (xmlns : option string) : string :=
  match xmlns with
  | Some uri => " xmlns=" +:+ String "034" uri +:+ String "034" ""
  | None => ""
  end.

(** The text of the document. *)
Definition render (doc : canonical) : string :=
  "<project" +:+ xmlns_attribute (c_xmlns doc) +:+ ">" +:+ c_gap0 doc
  +:+ "<dependencies>" +:+ c_gap1 doc
  +:+ render_entries (c_entries doc)
        ("</dependencies>" +:+ c_gap2 doc +:+ "</project>").

(** The [text] of an element that starts with [gap]. *)
Definition text_of (gap : string) : option string :=
  match gap with
  | EmptyString => None
  | _ => Some gap
  end.

(** An element named [name] under the default namespace [ns]. *)
Definition element (ns : option string) (name : string) (t : option string)
    (cs : list Element) : Element :=
  mkElement (Lxml.clark ns name) ns t cs.

(** The tree of an entry. *)
Definition entry_tree (ns : option string) (e : canonical_entry) : Element :=
  element ns "dependency" (text_of (ce_gap0 e))
    (element ns "groupId" (Some (ce_group e)) []
     :: element ns "artifactId" (Some (ce_artifact e)) []
     :: match ce_version e with
        | Some v => [element ns "version" (Some v) []]
        | None => []
        end).

(** The tree of the document. *)
Definition tree_of (doc : canonical) : Element :=
  element (c_xmlns doc) "project" (text_of (c_gap0 doc))
    [element (c_xmlns doc) "dependencies" (text_of (c_gap1 doc))
       (entry_tree (c_xmlns doc) <$> c_entries doc)].

(** A plain text that is not empty. *)
Definition filled (s : string) : bool :=
  match s with
  | EmptyString => false
  | _ => plain s
  end.

(** The texts of the entry are plain, and not empty inside the elements. *)
Definition entry_ok (e : canonical_entry) : bool :=
  plain (ce_gap0 e) && filled (ce_group e) && plain (ce_gap1 e)
  && filled (ce_artifact e) && plain (ce_gap2 e)
  && match ce_version e with
     | Some v => filled v
     | None => true
     end
  && plain (ce_gap3 e) && plain (ce_gap4 e).

(** The namespace is not empty and all texts of the document are plain. *)
Definition canonical_ok (doc : canonical) : bool :=
  match c_xmlns doc with
  | Some uri => filled uri
  | None => true
  end
  && plain (c_gap0 doc) && plain (c_gap1 doc) && plain (c_gap2 doc)
  && forallb entry_ok (c_entries doc).

(** What the structural extractor makes of an entry. *)
Definition assign (d : snapshot) (e : canonical_entry) : snapshot :=
  <[dependency_key (Py.strip (ce_group e)) (Py.strip (ce_artifact e))
    := Py.strip <$> ce_version e]> d.

(** What the pattern-based extractor makes of an entry. *)
Definition assign_matched (d : snapshot) (e : canonical_entry) : snapshot :=
  match ce_version e with
  | Some _ => assign d e
  | None => d
  end.

(** ** The rows of a file, of a commit and of a run *)

(** [st] after [emitted] was appended for [commit]. *)
Definition extended (commit : PyDriller.Commit) (emitted : list (list string))
    (st : mining) : mining :=
  mkMining (rows st ++ emitted)
    (touched commit emitted (commits_with_changes st)).

(** The records of the comparison, in the order of the three loops. *)
Definition emitted_rows `{SetOrder} (commit : PyDriller.Commit)
    (old_deps new_deps : snapshot) : list (list string) :=
  (change_record commit "added" <$> set_iter (dom new_deps ∖ dom old_deps))
  ++ (change_record commit "removed" <$> set_iter (dom old_deps ∖ dom new_deps))
  ++ flat_map (classified commit old_deps new_deps)
       (set_iter (dom old_deps ∩ dom new_deps)).

(** The records that one modified file contributes. *)
Definition file_rows `{SetOrder} (fromstring : string → result Element)
    (commit : PyDriller.Commit) (modification : PyDriller.ModifiedFile)
    : result (list (list string)) :=
  if decide (is_pom modification) then
    old_deps ← _parse_pom_dependencies fromstring
                 (PyDriller.source_code_before modification);
    new_deps ← _parse_pom_dependencies fromstring
                 (PyDriller.source_code modification);
    Ok (emitted_rows commit old_deps new_deps)
  else Ok [].

(** The lists that [f] gives for the elements of [l], one after the other;
    the first exception ends the collection. *)
Fixpoint collect {A B : Type} (f : A → result (list B)) (l : list A)
    : result (list B) :=
  match l with
  | [] => Ok []
  | x :: l' => r ← f x; rs ← collect f l'; Ok (r ++ rs)
  end.

(** The records that one commit contributes. *)
Definition commit_rows `{SetOrder} (fromstring : string → result Element)
    (commit : PyDriller.Commit) : result (list (list string)) :=
  collect (file_rows fromstring commit) (PyDriller.modified_files commit).

#[global] Instance result_eq_dec {A : Type} `{EqDecision A} :
  EqDecision (result A).
Proof. solve_decision. Defined.

(** The state of a run that has collected the rows [rs]. *)
Definition collected (rs : list (list string)) : mining :=
  mkMining rs (list_to_set (omap row_hash rs)).

(** ** Keys and texts *)

Definition first_char (s : string) : option ascii :=
  match s with
  | String c _ => Some c
  | EmptyString => None
  end.

Fixpoint last_char (s : string) : option ascii :=
  match s with
  | String c EmptyString => Some c
  | String _ s' => last_char s'
  | EmptyString => None
  end.

(** [s] neither starts nor ends with a white space character. *)
Definition trimmed (s : string) : Prop :=
  ∀ c, first_char s = Some c ∨ last_char s = Some c → Py.isspace c = false.

(** [c] occurs in [s]. *)
Fixpoint occurs (c : ascii) (s : string) : bool :=
  match s with
  | String a s' => bool_decide (a = c) || occurs c s'
  | EmptyString => false
  end.

(** The key of an entry of a canonical document. *)
Definition entry_key (e : canonical_entry) : string :=
  dependency_key (Py.strip (ce_group e)) (Py.strip (ce_artifact e)).

(** ** Sample inputs *)

Definition sample_date : PyDriller.datetime :=
  {| PyDriller.isoformat := "2024-05-01T10:00:00+00:00" |}.

(** A modified file. *)
Definition sample_file (file : string) (before after : option string)
    : PyDriller.ModifiedFile :=
  {| PyDriller.filename := file;
     PyDriller.source_code_before := before;
     PyDriller.source_code := after |}.

(** A commit that modifies one file. *)
Definition sample_commit (h : string) (file : string)
    (before after : option string) : PyDriller.Commit :=
  {| PyDriller.hash := h;
     PyDriller.committer_date := sample_date;
     PyDriller.author := {| PyDriller.name := "dev" |};
     PyDriller.modified_files := [sample_file file before after] |}.

(** One entry with a version. *)
Definition pom_one : string :=
  "<project><dependency><groupId>g</groupId><artifactId>a</artifactId><version>1</version></dependency></project>".

(** Two entries without version. *)
Definition pom_two : string :=
  "<project><dependency><groupId>g</groupId><artifactId>b</artifactId></dependency><dependency><groupId>g</groupId><artifactId>c</artifactId></dependency></project>".

(** The same key twice, first without and then with a version. *)
Definition pom_duplicate : string :=
  "<project><dependencies><dependency><groupId>g</groupId><artifactId>a</artifactId></dependency><dependency><groupId>g</groupId><artifactId>a</artifactId><version>1.0</version></dependency></dependencies></project>".

(** The element of an entry without namespace and without gaps. *)
Definition entry (group_id artifact_id : string) (version : option string)
    : Element :=
  mkElement "dependency" None None
    ([mkElement "groupId" None (Some group_id) [];
      mkElement "artifactId" None (Some artifact_id) []]
     ++ match version with
        | Some v => [mkElement "version" None (Some v) []]
        | None => []
        end).

(** The tree of [pom_duplicate]. *)
Definition tree_duplicate : Element :=
  mkElement "project" None None
    [mkElement "dependencies" None None
       [entry "g" "a" None; entry "g" "a" (Some "1.0")]].

(** An entry without group identifier, then an entry without version. *)
Definition pom_partial : string :=
  "<project><dependencies><dependency><artifactId>orphan</artifactId><version>3</version></dependency><dependency><groupId>g</groupId><artifactId>a</artifactId></dependency></dependencies></project>".

(** The tree of [pom_partial]. *)
Definition tree_partial : Element :=
  mkElement "project" None None
    [mkElement "dependencies" None None
       [mkElement "dependency" None None
          [mkElement "artifactId" None (Some "orphan") [];
           mkElement "version" None (Some "3") []];
        entry "g" "a" None]].

(** Entries with an empty element, and an entry without group identifier. *)
Definition pom_empty_group : string :=
  "<project><dependencies><dependency><groupId></groupId><artifactId>a</artifactId><version>1</version></dependency></dependencies></project>".

Definition pom_empty_artifact : string :=
  "<project><dependencies><dependency><groupId>g</groupId><artifactId/><version>1</version></dependency></dependencies></project>".

Definition pom_empty_version : string :=
  "<project><dependencies><dependency><groupId>g</groupId><artifactId>a</artifactId><version></version></dependency></dependencies></project>".

Definition pom_absent_group : string :=
  "<project><dependencies><dependency><artifactId>a</artifactId><version>1</version></dependency></dependencies></project>".

(** A canonical document with a default namespace and indentation. *)
Definition pom_canonical : canonical :=
  {| c_xmlns := Some "http://maven.apache.org/POM/4.0.0";
     c_gap0 := "
  ";
     c_gap1 := "
    ";
     c_entries :=
       [{| ce_gap0 := "
      "; ce_group := "org.slf4j"; ce_gap1 := "
      "; ce_artifact := "slf4j-api"; ce_gap2 := "
      "; ce_version := Some " 2.0.9 "; ce_gap3 := "
    "; ce_gap4 := "
    " |};
        {| ce_gap0 := ""; ce_group := "junit"; ce_gap1 := "";
           ce_artifact := "junit"; ce_gap2 := ""; ce_version := Some "4.13";
           ce_gap3 := ""; ce_gap4 := "
  " |}];
     c_gap2 := "
" |}.






(** An entry, with a version, whose exclusions stand before its own
    identifiers. *)
Definition pom_exclusions : string :=
  "<project><dependencies><dependency><exclusions><exclusion><groupId>x</groupId><artifactId>y</artifactId></exclusion></exclusions><groupId>g</groupId><artifactId>a</artifactId><version>1.0</version></dependency></dependencies></project>".

(** Two commits on [pom.xml]: the first adds one dependency, the second
    replaces it by two others. *)
Definition sample_history : list PyDriller.Commit :=
  [sample_commit "c1" "pom.xml" None (Some pom_one);
   sample_commit "c2" "pom.xml" (Some pom_one) (Some pom_two)].

(** * Properties *)

(** ** Texts *)

Lemma append_assoc (x y z : string) : (x +:+ y) +:+ z = x +:+ y +:+ z.
Proof. induction x as [|c x IH]; simpl; [done|]. by rewrite IH. Qed.

Lemma append_nil_r (x : string) : x +:+ "" = x.
Proof. induction x as [|c x IH]; simpl; [done|]. by rewrite IH. Qed.

(** ** Loops *)

Lemma for_each_app {A S : Type} (body : S → A → result S) st l1 l2 :
  for_each body st (l1 ++ l2) = st' ← for_each body st l1; for_each body st' l2.
Proof.
  revert st. induction l1 as [|x l1 IH]; intros st; simpl; [done|].
  destruct (body st x) as [st'|e]; simpl; [apply IH | done].
Qed.

(** ** The comparison of two snapshots *)

Lemma add_twice (h : string) (s : gset string) : {[h]} ∪ ({[h]} ∪ s) = {[h]} ∪ s.
Proof. by rewrite (assoc_L (∪)), (idemp_L (∪)). Qed.

Lemma touched_app commit l1 l2 s :
  touched commit l2 (touched commit l1 s) = touched commit (l1 ++ l2) s.
Proof. destruct l1, l2; simpl; by rewrite ?add_twice. Qed.

Lemma foldl_record_change commit change_type l st :
  foldl (record_change commit change_type) st l =
  mkMining (rows st ++ (change_record commit change_type <$> l))
    (match l with
     | [] => commits_with_changes st
     | _ :: _ => {[PyDriller.hash commit]} ∪ commits_with_changes st
     end).
Proof.
  revert st. induction l as [|dep l IH]; intros st; simpl.
  - rewrite app_nil_r. by destruct st.
  - rewrite IH. simpl. rewrite <- app_assoc. f_equal.
    destruct l; [done|]. by rewrite add_twice.
Qed.

Lemma records_of_app k l1 l2 :
  records_of k (l1 ++ l2) = records_of k l1 ++ records_of k l2.
Proof. apply filter_app. Qed.

Lemma records_of_fresh commit change_type k (l : list string) :
  k ∉ l → records_of k (change_record commit change_type <$> l) = [].
Proof.
  induction l as [|x l IH]; intros Hk; [done|].
  apply not_elem_of_cons in Hk as [Hx Hl].
  unfold records_of in *. rewrite fmap_cons, filter_cons_False; [auto|].
  simpl. congruence.
Qed.

Lemma records_of_once commit change_type k (l : list string) :
  NoDup l → k ∈ l →
  records_of k (change_record commit change_type <$> l)
  = [change_record commit change_type k].
Proof.
  induction 1 as [|x l Hx Hl IH]; intros Hk; [by apply elem_of_nil in Hk|].
  unfold records_of in *. rewrite fmap_cons.
  destruct (decide (x = k)) as [->|Hne].
  - rewrite filter_cons_True by done. f_equal.
    by apply (records_of_fresh commit change_type).
  - rewrite filter_cons_False by (simpl; congruence).
    apply IH. apply elem_of_cons in Hk as [?|?]; [congruence|done].
Qed.

Section Comparison.

Context `{SetOrder}.

Lemma set_iter_NoDup s : NoDup (set_iter s).
Proof. rewrite set_iter_perm. apply NoDup_elements. Qed.

Lemma elem_of_set_iter s k : k ∈ set_iter s ↔ k ∈ s.
Proof. rewrite set_iter_perm. apply elem_of_elements. Qed.

Lemma record_if_changed_eq commit (old_deps new_deps : snapshot) st dep
    old_v new_v :
  old_deps !! dep = Some old_v → new_deps !! dep = Some new_v →
  record_if_changed commit old_deps new_deps st dep
  = Ok (if decide (old_v ≠ new_v)
        then record_change commit (changed_from_to old_v new_v) st dep
        else st).
Proof.
  intros Ho Hn. unfold record_if_changed, subscript. rewrite Ho, Hn. simpl.
  by destruct (decide (old_v ≠ new_v)).
Qed.

(** The third loop does not raise when its keys are in both snapshots, and
    it records the keys whose versions differ. *)
Lemma changed_loop commit (old_deps new_deps : snapshot) (l : list string) :
  ∀ st, (∀ k, k ∈ l → k ∈ dom old_deps ∩ dom new_deps) → NoDup l →
  ∃ emitted,
    for_each (record_if_changed commit old_deps new_deps) st l
    = Ok (mkMining (rows st ++ emitted)
            (touched commit emitted (commits_with_changes st)))
    ∧ Forall (record_of_commit commit) emitted
    ∧ ∀ k, records_of k emitted
           = if decide (k ∈ l) then classified commit old_deps new_deps k else [].
Proof.
  induction l as [|dep l IH]; intros st Hdom Hnd.
  - exists []. simpl. rewrite app_nil_r. split; [by destruct st|].
    split; [constructor|]. intros k. by destruct (decide (k ∈ [])).
  - apply NoDup_cons in Hnd as [Hdep Hnd].
    assert (Hin : dep ∈ dom old_deps ∩ dom new_deps) by (apply Hdom; left).
    apply elem_of_intersection in Hin as [[old_v Ho]%elem_of_dom [new_v Hn]%elem_of_dom].
    simpl. rewrite (record_if_changed_eq _ _ _ _ _ _ _ Ho Hn).
    assert (Hdom' : ∀ k, k ∈ l → k ∈ dom old_deps ∩ dom new_deps)
      by (intros k Hk; apply Hdom; by right).
    destruct (decide (old_v ≠ new_v)) as [Hne|Heq]; simpl.
    + destruct (IH (record_change commit (changed_from_to old_v new_v) st dep)
                  Hdom' Hnd) as (emitted & Hrun & Hall & Hrec).
      exists (change_record commit (changed_from_to old_v new_v) dep :: emitted).
      split; [|split].
      * rewrite Hrun. simpl. rewrite <- app_assoc. simpl. do 2 f_equal.
        destruct emitted; simpl; by rewrite ?add_twice.
      * constructor; [by eexists _, _|done].
      * intros k. unfold records_of in *. destruct (decide (dep = k)) as [->|Hk].
        -- rewrite filter_cons_True by done. rewrite Hrec.
           rewrite decide_False by done. rewrite decide_True by left.
           unfold classified. rewrite Ho, Hn. by rewrite decide_False.
        -- rewrite filter_cons_False by (simpl; congruence). rewrite Hrec.
           destruct (decide (k ∈ l)) as [Hl|Hl].
           ++ by rewrite decide_True by (by right).
           ++ rewrite decide_False; [done|]. intros [?|?]%elem_of_cons; congruence.
    + apply dec_stable in Heq. subst new_v.
      destruct (IH st Hdom' Hnd) as (emitted & Hrun & Hall & Hrec).
      exists emitted. split; [done|]. split; [done|].
      intros k. rewrite Hrec. destruct (decide (dep = k)) as [->|Hk].
      * rewrite decide_False by done. rewrite decide_True by left.
        unfold classified. rewrite Ho, Hn. by rewrite decide_True.
      * destruct (decide (k ∈ l)) as [Hl|Hl].
        -- by rewrite decide_True by (by right).
        -- rewrite decide_False; [done|]. intros [?|?]%elem_of_cons; congruence.
Qed.

(** The comparison never raises; it appends its records to [rows] and adds
    the hash of the commit exactly when it appends something. *)
Lemma compare_snapshots_spec commit (old_deps new_deps : snapshot) st :
  ∃ emitted,
    compare_snapshots commit old_deps new_deps st
    = Ok (mkMining (rows st ++ emitted)
            (touched commit emitted (commits_with_changes st)))
    ∧ Forall (record_of_commit commit) emitted
    ∧ ∀ k, records_of k emitted = classified commit old_deps new_deps k.
Proof.
  unfold compare_snapshots. rewrite !foldl_record_change. simpl.
  set (added := set_iter (dom new_deps ∖ dom old_deps)).
  set (removed := set_iter (dom old_deps ∖ dom new_deps)).
  set (both := set_iter (dom old_deps ∩ dom new_deps)).
  set (st2 := mkMining _ _).
  destruct (changed_loop commit old_deps new_deps both st2)
    as (em & Hrun & Hall & Hrec).
  { intros k. apply elem_of_set_iter. }
  { apply set_iter_NoDup. }
  exists ((change_record commit "added" <$> added)
          ++ (change_record commit "removed" <$> removed) ++ em).
  split; [|split].
  - rewrite Hrun. subst st2. simpl. rewrite <- !app_assoc. f_equal.
    destruct added, removed, em; simpl; by rewrite ?add_twice.
  - rewrite !Forall_app. split_and!; [| |done];
      apply Forall_fmap, Forall_true; intros dep; by eexists _, _.
  - intros k. rewrite !records_of_app, Hrec.
    assert (Ha : k ∈ added ↔ new_deps !! k ≠ None ∧ old_deps !! k = None).
    { unfold added. rewrite elem_of_set_iter, elem_of_difference.
      rewrite !elem_of_dom, <- !not_eq_None_Some.
      split; intros [? ?]; split; try done. by apply dec_stable. naive_solver. }
    assert (Hr : k ∈ removed ↔ old_deps !! k ≠ None ∧ new_deps !! k = None).
    { unfold removed. rewrite elem_of_set_iter, elem_of_difference.
      rewrite !elem_of_dom, <- !not_eq_None_Some.
      split; intros [? ?]; split; try done. by apply dec_stable. naive_solver. }
    assert (Hb : k ∈ both ↔ old_deps !! k ≠ None ∧ new_deps !! k ≠ None).
    { unfold both. rewrite elem_of_set_iter, elem_of_intersection.
      by rewrite !elem_of_dom, <- !not_eq_None_Some. }
    assert (NoDup added) by apply set_iter_NoDup.
    assert (NoDup removed) by apply set_iter_NoDup.
    unfold classified in *.
    destruct (old_deps !! k) as [old_v|] eqn:Ho, (new_deps !! k) as [new_v|] eqn:Hn.
    + rewrite records_of_fresh by naive_solver.
      rewrite records_of_fresh by naive_solver.
      rewrite decide_True by naive_solver. done.
    + rewrite records_of_fresh by naive_solver.
      rewrite records_of_once by naive_solver.
      rewrite decide_False by naive_solver. done.
    + rewrite records_of_once by naive_solver.
      rewrite records_of_fresh by naive_solver.
      rewrite decide_False by naive_solver. done.
    + rewrite records_of_fresh by naive_solver.
      rewrite records_of_fresh by naive_solver.
      rewrite decide_False by naive_solver. done.
Qed.

(** C1. The comparison of two snapshots returns (it raises nothing) with
    the records it emits appended to [rows].  Each of these records has
    the five fields: hash, date and author of the commit, a dependency
    key and a change type.  Among them every dependency key has exactly
    the records of its one outcome: one record ["added"] when the key is
    in the new snapshot only, one record ["removed"] when it is in the old
    snapshot only, one record ["changed from X to Y"] when it is in both
    with different versions, where X is the old and Y the new version
    text, or [None] for a null version (which differs from every text),
    and no record when the versions are equal or the key is in neither. *)
Theorem compare_snapshots_classifies commit (old_deps new_deps : snapshot) st :
  let record dep change_type :=
    [PyDriller.hash commit;
     PyDriller.isoformat (PyDriller.committer_date commit);
     PyDriller.name (PyDriller.author commit);
     dep;
     change_type] in
  let shown (v : option string) :=
    match v with
    | Some version => version
    | None => "None"
    end in
  ∃ st' emitted,
    compare_snapshots commit old_deps new_deps st = Ok st'
    ∧ rows st' = rows st ++ emitted
    ∧ Forall (fun row => ∃ dep change_type, row = record dep change_type)
        emitted
    ∧ ∀ k, records_of k emitted =
        match old_deps !! k, new_deps !! k with
        | None, Some _ => [record k "added"]
        | Some _, None => [record k "removed"]
        | Some old_v, Some new_v =>
            if decide (old_v = new_v) then []
            else [record k ("changed from " +:+ shown old_v +:+ " to "
                            +:+ shown new_v)]
        | None, None => []
        end.
Proof.
  intros record shown.
  destruct (compare_snapshots_spec commit old_deps new_deps st)
    as (emitted & Hrun & Hall & Hrec).
  eexists _, emitted. split; [exact Hrun|]. split; [done|]. split.
  - eapply Forall_impl; [exact Hall|].
    intros row (change_type & dep & ->). by exists dep, change_type.
  - intros k. rewrite Hrec. unfold classified.
    by destruct (old_deps !! k) as [old_v|], (new_deps !! k) as [new_v|].
Qed.

End Comparison.

(** A comparison with the four outcomes: [n:m] is added, [x:y] is
    removed, the version of [g:a] changes from one text to another, [h:b]
    gets a version where it had none, and [s:t] is unchanged. *)
Lemma compare_snapshots_classifies_witness :
  let commit := sample_commit "c1" "pom.xml" None None in
  let old_deps : snapshot :=
    {["g:a" := Some "1.0"; "h:b" := None; "x:y" := Some "7"; "s:t" := Some "5"]} in
  let new_deps : snapshot :=
    {["g:a" := Some "2.0"; "h:b" := Some "3"; "n:m" := None; "s:t" := Some "5"]} in
  let record dep change_type :=
    ["c1"; "2024-05-01T10:00:00+00:00"; "dev"; dep; change_type] in
  ∃ st',
    compare_snapshots commit old_deps new_deps (mkMining [] ∅) = Ok st'
    ∧ length (rows st') = 4
    ∧ records_of "g:a" (rows st') = [record "g:a" "changed from 1.0 to 2.0"]
    ∧ records_of "h:b" (rows st') = [record "h:b" "changed from None to 3"]
    ∧ records_of "n:m" (rows st') = [record "n:m" "added"]
    ∧ records_of "x:y" (rows st') = [record "x:y" "removed"]
    ∧ records_of "s:t" (rows st') = [].
Proof.
  intros commit old_deps new_deps record.
  destruct (compare_snapshots_classifies commit old_deps new_deps (mkMining [] ∅))
    as (st' & emitted & Hrun & Hrows & _ & Hrec).
  simpl in Hrows. exists st'. split; [exact Hrun|]. rewrite Hrows. split.
  - vm_compute in Hrun. injection Hrun as <-. simpl in Hrows. by subst emitted.
  - rewrite !Hrec. split_and!; vm_compute; reflexivity.
Defined.

(** ** The traversal driver *)

Lemma row_hash_record commit emitted :
  Forall (record_of_commit commit) emitted →
  omap row_hash emitted = replicate (length emitted) (PyDriller.hash commit).
Proof.
  induction 1 as [|row l (ty & dep & ->) _ IH]; [done|].
  simpl. f_equal. exact IH.
Qed.

Lemma touched_hashes commit emitted (s : gset string) :
  Forall (record_of_commit commit) emitted →
  touched commit emitted s = list_to_set (omap row_hash emitted) ∪ s.
Proof.
  intros Hall. rewrite (row_hash_record commit) by done.
  destruct emitted as [|row l]; simpl.
  - by rewrite (left_id_L ∅ (∪)).
  - f_equal. clear. induction (length l) as [|n IH]; simpl.
    + by rewrite (right_id_L ∅ (∪)).
    + rewrite <- IH. by rewrite (idemp_L (∪)).
Qed.

Lemma size_distinct (l : list string) :
  size (list_to_set l : gset string) = length (remove_dups l).
Proof.
  rewrite <- (size_list_to_set (C := gset string)) by apply NoDup_remove_dups.
  f_equal. apply set_eq. intros x.
  by rewrite !elem_of_list_to_set, elem_of_remove_dups.
Qed.

Section Traversal.

Context `{SetOrder}.
Variable fromstring : string → result Element.

Lemma mine_file_gained commit st modification st' :
  mine_file fromstring commit st modification = Ok st' →
  ∃ emitted, gained commit st st' emitted.
Proof.
  unfold mine_file. case_decide.
  - intros [= <-]. exists []. split; [|constructor].
    simpl. rewrite app_nil_r. by destruct st.
  - destruct (_parse_pom_dependencies _ (PyDriller.source_code_before _))
      as [old_deps|]; [simpl|done].
    destruct (_parse_pom_dependencies _ (PyDriller.source_code _))
      as [new_deps|]; [simpl|done].
    destruct (compare_snapshots_spec commit old_deps new_deps st)
      as (emitted & -> & Hall & _).
    intros [= <-]. by exists emitted.
Qed.

Lemma mine_files_gained commit files :
  ∀ st st', for_each (mine_file fromstring commit) st files = Ok st' →
            ∃ emitted, gained commit st st' emitted.
Proof.
  induction files as [|modification files IH]; intros st st'; simpl.
  - intros [= <-]. exists []. split; [|constructor].
    simpl. rewrite app_nil_r. by destruct st.
  - destruct (mine_file _ _ _ _) as [st1|] eqn:Hfile; [simpl|done].
    intros Hrest.
    apply mine_file_gained in Hfile as (em1 & -> & Hall1).
    apply IH in Hrest as (em2 & -> & Hall2).
    exists (em1 ++ em2). split; [|by apply Forall_app].
    simpl. by rewrite touched_app, app_assoc.
Qed.

Lemma mine_commit_gained commit st st' :
  mine_commit fromstring st commit = Ok st' →
  ∃ emitted, gained commit st st' emitted.
Proof. apply mine_files_gained. Qed.

Lemma mine_commit_hashes commit st st' :
  hashes_of_rows st → mine_commit fromstring st commit = Ok st' →
  hashes_of_rows st'.
Proof.
  unfold hashes_of_rows.
  intros Hst (emitted & -> & Hall)%mine_commit_gained. simpl.
  rewrite (touched_hashes _ _ _ Hall), Hst, omap_app, list_to_set_app_L.
  apply (comm_L (∪)).
Qed.

Lemma mine_commits_hashes commits :
  ∀ st st', hashes_of_rows st →
            for_each (mine_commit fromstring) st commits = Ok st' →
            hashes_of_rows st'.
Proof.
  induction commits as [|commit commits IH]; intros st st' Hst; simpl.
  - by intros [= <-].
  - destruct (mine_commit _ _ _) as [st1|] eqn:Hc; [simpl|done].
    apply IH. by eapply mine_commit_hashes.
Qed.

(** C5. When the driver has processed a commit, the records the commit
    produced are appended to [rows]; if there is at least one, the set of
    commit identifiers has gained the hash of the commit and nothing else,
    hence exactly one element when the hash is new, however many records
    there are; if there is none the set is unchanged.  At the end of the
    traversal the set is the set of the hashes that occur in [rows], and
    the count that the summary prints is its size: the number of distinct
    commit hashes with at least one record. *)
Theorem commit_identifiers_counted :
  (∀ st commit st',
     mine_commit fromstring st commit = Ok st' →
     ∃ emitted,
       rows st' = rows st ++ emitted
       ∧ Forall (fun row => row_hash row = Some (PyDriller.hash commit)) emitted
       ∧ (emitted ≠ [] →
          commits_with_changes st'
          = {[PyDriller.hash commit]} ∪ commits_with_changes st
          ∧ (PyDriller.hash commit ∉ commits_with_changes st →
             size (commits_with_changes st')
             = S (size (commits_with_changes st))))
       ∧ (emitted = [] → commits_with_changes st' = commits_with_changes st))
  ∧ (∀ commits st,
       mine_commits fromstring commits = Ok st →
       commits_with_changes st = list_to_set (omap row_hash (rows st))
       ∧ size (commits_with_changes st)
         = length (remove_dups (omap row_hash (rows st))))
  ∧ (∀ Repository owner repo stdout report,
       mine_repository fromstring Repository owner repo
       = Completed stdout report →
       ∃ st,
         mine_commits fromstring
           (Repository ("https://github.com/" +:+ owner +:+ "/" +:+ repo))
         = Ok st
         ∧ stdout !! 4
           = Some ("Number of commits with dependency changes: "
                   +:+ pretty (size (commits_with_changes st)))
         ∧ stdout !! 7
           = Some ("Commits with dependency changes: "
                   +:+ pretty (size (commits_with_changes st)))).
Proof.
  split_and!.
  - intros st commit st' (emitted & -> & Hall)%mine_commit_gained.
    exists emitted. simpl. split_and!; [done| | |by intros ->].
    + eapply Forall_impl; [exact Hall|]. by intros row (ty & dep & ->).
    + destruct emitted; [done|]. intros _. simpl. split; [done|].
      intros Hnew. rewrite size_union by set_solver.
      by rewrite size_singleton.
  - intros commits st Hrun.
    assert (Hst : hashes_of_rows st).
    { eapply mine_commits_hashes; [|exact Hrun]. done. }
    split; [exact Hst|]. rewrite Hst. apply size_distinct.
  - intros Repository owner repo stdout report. unfold mine_repository.
    destruct (mine_commits _ _) as [st|]; [|done].
    intros [= <- <-]. by exists st.
Qed.

End Traversal.

(** A commit that records three changes after another commit has been
    recorded: the set of commit identifiers gains one element. *)
Lemma commit_identifiers_counted_witness :
  let st := mkMining [["c1"; "2024-05-01T10:00:00+00:00"; "dev"; "g:a"; "added"]]
              {["c1"]} in
  let commit := sample_commit "c2" "pom.xml" (Some pom_one) (Some pom_two) in
  ∃ st',
    mine_commit Lxml.fromstring st commit = Ok st'
    ∧ length (rows st') = 4
    ∧ commits_with_changes st' = {["c2"]} ∪ {["c1"]}
    ∧ size (commits_with_changes st') = 2.
Proof.
  intros st commit.
  destruct (mine_commit Lxml.fromstring st commit) as [st'|] eqn:Hrun;
    [|by vm_compute in Hrun].
  exists st'. split; [done|].
  destruct (proj1 (commit_identifiers_counted Lxml.fromstring) st commit st' Hrun)
    as (emitted & Hrows & _ & Hsome & _).
  assert (Hlen : length (rows st') = 4).
  { vm_compute in Hrun. by injection Hrun as <-. }
  assert (Hem : emitted ≠ []).
  { intros ->. rewrite Hrows, app_nil_r in Hlen. done. }
  destruct (Hsome Hem) as [Hset Hsize].
  split; [done|]. split; [done|].
  apply Hsize. simpl. by apply not_elem_of_singleton.
Defined.

(** ** The filter on the file name *)

Lemma mine_file_other `{SetOrder} fromstring commit st modification :
  ¬ is_pom modification →
  mine_file fromstring commit st modification = Ok st.
Proof. intros Hp. unfold mine_file. by case_decide. Qed.

(** C6. Mining a commit is mining its modified files named [pom.xml]
    only: the files with another name are passed over, whatever their
    contents, and reach neither the extractor nor the comparison.  When no
    modified file of the commit has this name, the commit leaves [rows]
    and the set of commit identifiers as they were. *)
Theorem only_descriptor_is_mined `{SetOrder} fromstring st commit :
  mine_commit fromstring st commit
  = for_each (mine_file fromstring commit) st
      (filter is_pom (PyDriller.modified_files commit))
  ∧ ((∀ modification,
        modification ∈ PyDriller.modified_files commit →
        PyDriller.filename modification ≠ "pom.xml") →
     mine_commit fromstring st commit = Ok st).
Proof.
  unfold mine_commit.
  assert (Hfilter : ∀ files st0,
    for_each (mine_file fromstring commit) st0 files
    = for_each (mine_file fromstring commit) st0 (filter is_pom files)).
  { induction files as [|modification files IH]; intros st0; [done|].
    destruct (decide (is_pom modification)) as [Hp|Hp].
    - rewrite filter_cons_True by done. simpl.
      destruct (mine_file _ _ _ _); simpl; [apply IH|done].
    - rewrite filter_cons_False by done. simpl.
      rewrite mine_file_other by done. apply IH. }
  split; [apply Hfilter|].
  intros Hother.
  induction (PyDriller.modified_files commit) as [|modification files IH];
    [done|].
  simpl. rewrite mine_file_other by (apply Hother; left).
  apply IH. intros m Hm. apply Hother. by right.
Qed.

(** A commit that modifies a file of another name, whose contents are not
    even a document, records nothing. *)
Lemma only_descriptor_is_mined_witness :
  let commit := sample_commit "c3" "build.xml" (Some "<project>") None in
  let st := mkMining [] ∅ in
  mine_commit Lxml.fromstring st commit = Ok st.
Proof.
  intros commit st.
  apply (proj2 (only_descriptor_is_mined Lxml.fromstring st commit)).
  intros modification Hm. apply list_elem_of_singleton in Hm as ->. done.
Defined.

(** ** The report *)

(** C8. A run that reaches the report writer, which is every run whose
    traversal returns, writes the file [{owner}_{repo}_dependency_commits.csv],
    opened for writing as UTF-8 without newline translation; its contents
    are the header row of the five column names, separated by commas and
    ended by CR LF, followed by the rows of the traversal as the CSV writer
    renders them; with no row the file is the header row alone.  A row of
    five fields that need no quoting is these fields separated by commas. *)
Theorem report_file_format `{SetOrder} fromstring Repository owner repo :
  (∀ st,
     mine_commits fromstring (Repository (repo_url owner repo)) = Ok st →
     ∃ stdout report,
       mine_repository fromstring Repository owner repo = Completed stdout report
       ∧ file_name report = owner +:+ "_" +:+ repo +:+ "_dependency_commits.csv"
       ∧ file_mode report = "w"
       ∧ file_encoding report = "utf-8"
       ∧ file_content report = header_line +:+ Csv.writerows (rows st)
       ∧ (rows st = [] → file_content report = header_line))
  ∧ (∀ a b c d e,
       Forall (fun s => Csv.any Csv.special s = false) [a; b; c; d; e] →
       Csv.writerow [a; b; c; d; e]
       = a +:+ "," +:+ b +:+ "," +:+ c +:+ "," +:+ d +:+ "," +:+ e
         +:+ Csv.lineterminator).
Proof.
  split.
  - intros st Hrun. unfold mine_repository. fold (repo_url owner repo).
    rewrite Hrun. eexists _, _. split; [done|]. simpl.
    split_and!; try done. by intros ->.
  - intros a b c d e Hall.
    repeat (apply Forall_cons in Hall as [? Hall]).
    assert (Hrow : Csv.join (Csv.field <$> [a; b; c; d; e])
              = a +:+ "," +:+ b +:+ "," +:+ c +:+ "," +:+ d +:+ "," +:+ e).
    { simpl. unfold Csv.field. by repeat match goal with
                                        | Hf : Csv.any _ _ = false |- _ =>
                                            rewrite Hf; clear Hf
                                        end. }
    replace (Csv.writerow [a; b; c; d; e]) with
      (Csv.join (Csv.field <$> [a; b; c; d; e]) +:+ Csv.lineterminator)
      by (by destruct a).
    rewrite Hrow. by rewrite !append_assoc.
Qed.

(** The run over a history without commits writes the header row alone;
    a record of plain fields is written with commas between them. *)
Lemma report_file_format_witness :
  (∃ stdout report,
     mine_repository Lxml.fromstring (fun _ => []) "pac4j" "dropwizard-pac4j"
     = Completed stdout report
     ∧ file_name report = "pac4j_dropwizard-pac4j_dependency_commits.csv"
     ∧ file_content report = header_line)
  ∧ Csv.writerow ["c1"; "2024-05-01T10:00:00+00:00"; "dev"; "g:a"; "added"]
    = "c1,2024-05-01T10:00:00+00:00,dev,g:a,added" +:+ Csv.lineterminator.
Proof.
  split.
  - destruct (proj1 (report_file_format Lxml.fromstring (fun _ => [])
                       "pac4j" "dropwizard-pac4j") (mkMining [] ∅) eq_refl)
      as (stdout & report & Hrun & Hname & _ & _ & _ & Hrows).
    exists stdout, report. split; [done|]. split; [done|]. by apply Hrows.
  - apply (proj2 (report_file_format Lxml.fromstring (fun _ => []) "" "")).
    repeat constructor.
Defined.

(** ** The structural extractor *)

Ltac turn_goals :=
  unfold declared, has_identifiers, dependency_step, text_strip;
  repeat match goal with
         | Heq : _ = _ |- _ => rewrite Heq; clear Heq
         end;
  simpl; rewrite ?insert_empty, ?map_to_list_singleton;
  try done; try (by intros [? ?]).

Lemma dependency_step_turn namespace dep : turn namespace dep.
Proof.
  destruct (find (qualified namespace "groupId") dep) as [group|] eqn:Hg;
    [|apply turn_skip; turn_goals].
  destruct (find (qualified namespace "artifactId") dep) as [artifact|] eqn:Ha;
    [|apply turn_skip; turn_goals].
  destruct (text group) as [g|] eqn:Htg; [|apply turn_raise; turn_goals].
  destruct (text artifact) as [a|] eqn:Hta; [|apply turn_raise; turn_goals].
  destruct (find (qualified namespace "version") dep) as [version|] eqn:Hv.
  - destruct (text version) as [v|] eqn:Htv; [|apply turn_raise; turn_goals].
    apply (turn_assign _ _ (dependency_key (Py.strip g) (Py.strip a))
             (Some (Py.strip v))); turn_goals.
  - apply (turn_assign _ _ (dependency_key (Py.strip g) (Py.strip a)) None);
      turn_goals.
Qed.

(** The loop over entries, read through [declared]. *)
Lemma loop_cons namespace d dep deps result :
  for_each (dependency_step namespace) d (dep :: deps) = Ok result →
  for_each (dependency_step namespace)
    (match declared namespace dep with
     | Some (k, v) => <[k:=v]> d
     | None => d
     end) deps = Ok result.
Proof.
  simpl.
  destruct (dependency_step_turn namespace dep) as [_ Hs Hd|k v _ Hs Hd _|_ Hs Hd];
    rewrite Hs, Hd; done.
Qed.

(** Entries without both identifiers can be left out of the loop. *)
Lemma loop_skips namespace deps :
  ∀ d, for_each (dependency_step namespace) d deps
       = for_each (dependency_step namespace) d
           (filter (has_identifiers namespace) deps).
Proof.
  induction deps as [|dep deps IH]; intros d; [done|].
  destruct (dependency_step_turn namespace dep) as [Hno Hs _|k v Hyes Hs _ _|Hyes Hs _].
  - rewrite filter_cons_False by done. simpl. rewrite Hs. apply IH.
  - rewrite filter_cons_True by done. simpl. rewrite !Hs. apply IH.
  - rewrite filter_cons_True by done. simpl. by rewrite !Hs.
Qed.

(** A key of the result was in the initial dictionary or is assigned by
    an entry with both identifiers. *)
Lemma loop_keys namespace deps :
  ∀ d result k v,
    for_each (dependency_step namespace) d deps = Ok result →
    result !! k = Some v →
    d !! k = Some v
    ∨ ∃ dep, dep ∈ deps ∧ has_identifiers namespace dep
             ∧ declared namespace dep = Some (k, v).
Proof.
  induction deps as [|dep deps IH]; intros d result k v Hrun Hk.
  - injection Hrun as <-. by left.
  - apply loop_cons in Hrun.
    destruct (IH _ _ _ _ Hrun Hk) as [Hd|(dep' & Hin & Hid & Hdecl)].
    + destruct (dependency_step_turn namespace dep)
        as [_ _ Hnone|k' v' Hid _ Hsome _|_ _ Hnone];
        rewrite ?Hnone, ?Hsome in Hd; [by left| |by left].
      destruct (decide (k' = k)) as [->|Hne].
      * rewrite lookup_insert_eq in Hd. injection Hd as ->.
        right. exists dep. split; [left|done].
      * rewrite lookup_insert_ne in Hd by done. by left.
    + right. exists dep'. split; [by right|done].
Qed.

(** An assignment survives the rest of the loop when no later entry
    assigns the same key. *)
Lemma loop_keeps namespace deps :
  ∀ d result k v,
    for_each (dependency_step namespace) d deps = Ok result →
    d !! k = Some v →
    Forall (fun dep => ∀ v', declared namespace dep ≠ Some (k, v')) deps →
    result !! k = Some v.
Proof.
  induction deps as [|dep deps IH]; intros d result k v Hrun Hk Hlater.
  - by injection Hrun as <-.
  - apply Forall_cons in Hlater as [Hdep Hlater].
    apply loop_cons in Hrun. apply (IH _ _ _ _ Hrun); [|done].
    destruct (declared namespace dep) as [[k' v']|]; [|done].
    rewrite lookup_insert_ne; [done|]. intros ->. by apply (Hdep v').
Qed.

(** The last entry that assigns a key decides its version. *)
Lemma loop_last namespace l1 dep l2 d result k v :
  for_each (dependency_step namespace) d (l1 ++ dep :: l2) = Ok result →
  declared namespace dep = Some (k, v) →
  Forall (fun dep' => ∀ v', declared namespace dep' ≠ Some (k, v')) l2 →
  result !! k = Some v.
Proof.
  rewrite for_each_app.
  destruct (for_each _ d l1) as [d1|]; [simpl|done].
  intros Hrun Hdecl Hlater. apply loop_cons in Hrun. rewrite Hdecl in Hrun.
  apply (loop_keeps _ _ _ _ _ _ Hrun); [|done]. apply lookup_insert_eq.
Qed.

Lemma loop_each namespace deps :
  ∀ d result dep,
    for_each (dependency_step namespace) d deps = Ok result →
    dep ∈ deps → ∃ d0 d1, dependency_step namespace d0 dep = Ok d1.
Proof.
  induction deps as [|dep' deps IH]; intros d result dep Hrun Hin.
  - by apply elem_of_nil in Hin.
  - simpl in Hrun.
    destruct (dependency_step namespace d dep') as [d1|] eqn:Hstep; [|done].
    apply elem_of_cons in Hin as [->|Hin]; [by eexists _, _|].
    by apply (IH _ _ _ Hrun).
Qed.

Section Structural.

Variable fromstring : string → result Element.

(** On a text that is not empty the extractor is the loop over the entries
    of the parsed tree. *)
Lemma parse_parsed text tree :
  text ≠ "" → fromstring text = Ok tree →
  _parse_pom_dependencies fromstring (Some text) = tree_dependencies tree.
Proof.
  intros Htext Htree. unfold _parse_pom_dependencies.
  destruct text; [done|]. simpl. by rewrite Htree.
Qed.

(** C7. On an absent and on an empty text each of the two extractors
    returns the empty snapshot; the structural one does so without calling
    the parser, so it cannot raise. *)
Theorem empty_input_empty_snapshot :
  _parse_pom_dependencies fromstring None = Ok ∅
  ∧ _parse_pom_dependencies fromstring (Some "") = Ok ∅
  ∧ _parse_dependency_blocks None = ∅
  ∧ _parse_dependency_blocks (Some "") = ∅.
Proof. by split_and!. Qed.

(** C9. When the extractor returns a snapshot for a parseable text in
    which two entries assign the same key, and the second one is the last
    entry in document order to assign it, the snapshot maps the key to the
    version of that second entry, and holds exactly one pair for the key. *)
Theorem last_duplicate_wins text tree deps l1 e1 l2 e2 l3 k v1 v2 :
  text ≠ "" → fromstring text = Ok tree →
  _parse_pom_dependencies fromstring (Some text) = Ok deps →
  findall (qualified (nsmap_None tree) "dependency") tree
  = l1 ++ e1 :: l2 ++ e2 :: l3 →
  declared (nsmap_None tree) e1 = Some (k, v1) →
  declared (nsmap_None tree) e2 = Some (k, v2) →
  Forall (fun dep => ∀ v', declared (nsmap_None tree) dep ≠ Some (k, v')) l3 →
  deps !! k = Some v2
  ∧ filter (fun kv => kv.1 = k) (map_to_list deps) = [(k, v2)].
Proof.
  intros Htext Htree Hrun Hentries _ Hd2 Hlater.
  rewrite (parse_parsed _ _ Htext Htree) in Hrun.
  unfold tree_dependencies in Hrun. rewrite Hentries in Hrun.
  change (l1 ++ e1 :: l2 ++ e2 :: l3) with (l1 ++ (e1 :: l2) ++ e2 :: l3) in Hrun.
  rewrite app_assoc in Hrun.
  assert (Hk : deps !! k = Some v2) by (by eapply loop_last).
  split; [done|].
  assert (Hnd : NoDup (filter (fun kv => kv.1 = k) (map_to_list deps))).
  { apply NoDup_filter, NoDup_map_to_list. }
  assert (Hin : ∀ kv, kv ∈ filter (fun kv => kv.1 = k) (map_to_list deps)
                      ↔ kv = (k, v2)).
  { intros [k' v']. rewrite list_elem_of_filter, elem_of_map_to_list. simpl.
    split; [intros [-> Hv]; congruence|by intros [= -> ->]]. }
  destruct (filter _ _) as [|kv1 [|kv2 rest]].
  - specialize (proj2 (Hin (k, v2)) eq_refl). by intros ?%elem_of_nil.
  - f_equal. apply Hin. left.
  - apply NoDup_cons in Hnd as [Hne _]. exfalso. apply Hne.
    rewrite (proj1 (Hin kv1)) by left.
    rewrite <- (proj1 (Hin kv2)) by (right; left). left.
Qed.

End Structural.

Lemma fromstring_duplicate : Lxml.fromstring pom_duplicate = Ok tree_duplicate.
Proof. reflexivity. Qed.

(** The key [g:a] is declared twice, first without and then with a
    version: the snapshot has the version of the second entry. *)
Lemma last_duplicate_wins_witness :
  ∃ deps,
    _parse_pom_dependencies Lxml.fromstring (Some pom_duplicate) = Ok deps
    ∧ deps !! "g:a" = Some (Some "1.0")
    ∧ filter (fun kv => kv.1 = "g:a") (map_to_list deps) = [("g:a", Some "1.0")].
Proof.
  destruct (_parse_pom_dependencies Lxml.fromstring (Some pom_duplicate))
    as [deps|] eqn:Hrun; [|by vm_compute in Hrun].
  exists deps. split; [done|].
  apply (last_duplicate_wins Lxml.fromstring pom_duplicate tree_duplicate deps
           [] (entry "g" "a" None) [] (entry "g" "a" (Some "1.0")) []
           "g:a" None (Some "1.0")); try done.
Defined.

(** C3, as stated, fails on [pom_duplicate]: its first entry has both
    identifier elements and no version element, the extractor returns a
    snapshot, and the snapshot maps the key of that entry to the version
    ["1.0"] of the second entry, not to the null version. *)
Lemma versionless_entry_overwritten :
  ∃ tree dep deps,
    Lxml.fromstring pom_duplicate = Ok tree
    ∧ dep ∈ findall (qualified (nsmap_None tree) "dependency") tree
    ∧ has_identifiers (nsmap_None tree) dep
    ∧ find (qualified (nsmap_None tree) "version") dep = None
    ∧ declared (nsmap_None tree) dep = Some ("g:a", None)
    ∧ _parse_pom_dependencies Lxml.fromstring (Some pom_duplicate) = Ok deps
    ∧ deps !! "g:a" = Some (Some "1.0")
    ∧ deps !! "g:a" ≠ Some None.
Proof.
  exists tree_duplicate, (entry "g" "a" None), {["g:a" := Some "1.0"]}.
  split_and!; try done. left.
Qed.

Section Policy.

Variable fromstring : string → result Element.

(** C3, amended. When the extractor returns a snapshot for a parseable
    text: every key of the snapshot is assigned by an entry that has both
    identifier elements, and the snapshot is the one of these entries
    alone, so an entry that lacks an identifier element is passed over;
    and an entry with both identifier elements and no version element
    assigns its key the null version, which the snapshot holds for that
    key unless a later entry in document order assigns the same key. *)
Theorem identifiers_required_version_optional text tree deps :
  text ≠ "" → fromstring text = Ok tree →
  _parse_pom_dependencies fromstring (Some text) = Ok deps →
  let namespace := nsmap_None tree in
  let entries := findall (qualified namespace "dependency") tree in
  (∀ k v, deps !! k = Some v →
          ∃ dep, dep ∈ entries ∧ has_identifiers namespace dep
                 ∧ declared namespace dep = Some (k, v))
  ∧ for_each (dependency_step namespace) ∅
      (filter (has_identifiers namespace) entries) = Ok deps
  ∧ (∀ l1 dep l2,
       entries = l1 ++ dep :: l2 →
       has_identifiers namespace dep →
       find (qualified namespace "version") dep = None →
       ∃ k, declared namespace dep = Some (k, None)
            ∧ (Forall (fun dep' => ∀ v', declared namespace dep' ≠ Some (k, v')) l2 →
               deps !! k = Some None)).
Proof.
  intros Htext Htree Hrun namespace entries.
  rewrite (parse_parsed _ _ _ Htext Htree) in Hrun.
  unfold tree_dependencies in Hrun. fold namespace entries in Hrun.
  split_and!.
  - intros k v Hk.
    destruct (loop_keys _ _ _ _ _ _ Hrun Hk) as [Hempty|Hdep]; [|done].
    by rewrite lookup_empty in Hempty.
  - by rewrite <- loop_skips.
  - intros l1 dep l2 Hsplit Hid Hnov.
    assert (Hin : dep ∈ entries) by (rewrite Hsplit; set_solver).
    destruct (loop_each _ _ _ _ _ Hrun Hin) as (d0 & d1 & Hstep).
    destruct (dependency_step_turn namespace dep)
      as [Hno _ _|k v _ _ Hdecl Hv|_ Hraise _];
      [done| |by rewrite Hraise in Hstep].
    rewrite (Hv Hnov) in Hdecl. exists k. split; [done|].
    intros Hlater. rewrite Hsplit in Hrun. by eapply loop_last.
Qed.

End Policy.

(** An entry without group identifier followed by an entry without
    version: the snapshot is [{"g:a": None}]. *)
Lemma identifiers_required_version_optional_witness :
  ∃ deps,
    _parse_pom_dependencies Lxml.fromstring (Some pom_partial) = Ok deps
    ∧ deps = {["g:a" := None]}
    ∧ deps !! "g:a" = Some None.
Proof.
  destruct (_parse_pom_dependencies Lxml.fromstring (Some pom_partial))
    as [deps|] eqn:Hrun; [|by vm_compute in Hrun].
  exists deps. split; [done|].
  destruct (identifiers_required_version_optional Lxml.fromstring
              pom_partial tree_partial deps) as (Hkeys & Hskip & Hkeep);
    [discriminate|by vm_compute|exact Hrun|].
  split.
  - vm_compute in Hskip. by injection Hskip as <-.
  - destruct (Hkeep [mkElement "dependency" None None
                       [mkElement "artifactId" None (Some "orphan") [];
                        mkElement "version" None (Some "3") []]]
                (entry "g" "a" None) []) as (k & Hdecl & Hlast);
      [by vm_compute|split; by vm_compute|by vm_compute|].
    vm_compute in Hdecl. injection Hdecl as <-. apply Hlast. constructor.
Defined.

(** ** Empty elements *)

(** An element without text among the three that a turn of the loop reads
    makes the turn raise. *)
Lemma empty_element_step namespace dep el :
  has_identifiers namespace dep →
  find (qualified namespace "groupId") dep = Some el
  ∨ find (qualified namespace "artifactId") dep = Some el
  ∨ find (qualified namespace "version") dep = Some el →
  text el = None →
  ∀ d, dependency_step namespace d dep = Raise AttributeError.
Proof.
  intros [Hg Ha] Hel Htext d. unfold dependency_step, text_strip.
  destruct (find (qualified namespace "groupId") dep) as [group|]; [|done].
  destruct (find (qualified namespace "artifactId") dep) as [artifact|]; [|done].
  destruct Hel as [[= ->]|[[= ->]|Hv]].
  - by rewrite Htext.
  - rewrite Htext. by destruct (text group).
  - rewrite Hv, Htext. by destruct (text group), (text artifact).
Qed.

(** C10. There are parseable texts with an entry whose group identifier
    element, artifact identifier element or version element is present
    and empty, on which the structural extractor raises an exception,
    whereas on the text whose entry has no group identifier element at all
    it returns the empty snapshot.  In general a turn of the loop leaves
    every dictionary as it is exactly when the entry lacks an identifier
    element, and it raises when the entry has both identifier elements and
    one of the three elements it reads has no text. *)
Theorem empty_element_raises :
  (∃ tree, Lxml.fromstring pom_empty_group = Ok tree)
  ∧ _parse_pom_dependencies Lxml.fromstring (Some pom_empty_group)
    = Raise AttributeError
  ∧ (∃ tree, Lxml.fromstring pom_empty_artifact = Ok tree)
  ∧ _parse_pom_dependencies Lxml.fromstring (Some pom_empty_artifact)
    = Raise AttributeError
  ∧ (∃ tree, Lxml.fromstring pom_empty_version = Ok tree)
  ∧ _parse_pom_dependencies Lxml.fromstring (Some pom_empty_version)
    = Raise AttributeError
  ∧ (∃ tree, Lxml.fromstring pom_absent_group = Ok tree)
  ∧ _parse_pom_dependencies Lxml.fromstring (Some pom_absent_group) = Ok ∅
  ∧ (∀ namespace dep,
       (∀ d, dependency_step namespace d dep = Ok d)
       ↔ ¬ has_identifiers namespace dep)
  ∧ (∀ namespace dep el,
       has_identifiers namespace dep →
       find (qualified namespace "groupId") dep = Some el
       ∨ find (qualified namespace "artifactId") dep = Some el
       ∨ find (qualified namespace "version") dep = Some el →
       text el = None →
       ∀ d, dependency_step namespace d dep = Raise AttributeError).
Proof.
  repeat (split; [first [eexists; vm_compute; reflexivity
                        | vm_compute; reflexivity]|]).
  split; [|exact empty_element_step].
  intros namespace dep.
  destruct (dependency_step_turn namespace dep) as [Hno Hs _|k v Hid Hs _ _|Hid Hs _].
  - done.
  - split; [|done]. intros Hskip. specialize (Hskip ∅).
    rewrite Hs in Hskip.
    assert (Hins : <[k:=v]> (∅ : snapshot) = ∅) by congruence.
    by apply insert_non_empty in Hins.
  - split; [|done]. intros Hskip. specialize (Hskip ∅). by rewrite Hs in Hskip.
Qed.

(** The entry of [pom_empty_group] has both identifier elements, so its
    turn is not the silent one. *)
Lemma empty_element_raises_witness :
  let dep := mkElement "dependency" None None
               [mkElement "groupId" None None [];
                mkElement "artifactId" None (Some "a") [];
                mkElement "version" None (Some "1") []] in
  has_identifiers None dep
  ∧ (¬ ∀ d, dependency_step None d dep = Ok d)
  ∧ dependency_step None ∅ dep = Raise AttributeError.
Proof.
  intros dep.
  assert (Hid : has_identifiers None dep) by (split; by vm_compute).
  destruct empty_element_raises
    as (_ & _ & _ & _ & _ & _ & _ & _ & Hsilent & Hraise).
  split; [exact Hid|]. split.
  - intros Hskip. apply (Hsilent None dep) in Hskip. exact (Hskip Hid).
  - apply (Hraise None dep (mkElement "groupId" None None []) Hid).
    + left. vm_compute. reflexivity.
    + reflexivity.
Defined.

(** ** Unparseable texts *)

(** A loop raises what its body raises on the first element it cannot
    pass. *)
Lemma for_each_raise {A S : Type} (body : S → A → result S) st l1 x l2 st1 e :
  for_each body st l1 = Ok st1 → body st1 x = Raise e →
  for_each body st (l1 ++ x :: l2) = Raise e.
Proof.
  intros Hl1 Hx. rewrite for_each_app, Hl1. simpl. by rewrite Hx.
Qed.

(** The keys of the pattern-based extractor come from matched blocks. *)
Lemma blocks_keys blocks :
  ∀ (d : snapshot) k v,
    foldl block_step d blocks !! k = Some v →
    d !! k = Some v
    ∨ ∃ block g a ver,
        block ∈ blocks
        ∧ Re.search_element "groupId" block = Some g
        ∧ Re.search_element "artifactId" block = Some a
        ∧ Re.search_element "version" block = Some ver
        ∧ k = dependency_key (Py.strip g) (Py.strip a)
        ∧ v = Some (Py.strip ver).
Proof.
  induction blocks as [|block blocks IH]; intros d k v Hk; [by left|].
  simpl in Hk. apply IH in Hk as [Hk|(b & g & a & ver & Hin & ?)].
  - unfold block_step in Hk.
    destruct (Re.search_element "groupId" block) as [g|] eqn:Hg; [|by left].
    destruct (Re.search_element "artifactId" block) as [a|] eqn:Ha; [|by left].
    destruct (Re.search_element "version" block) as [ver|] eqn:Hv; [|by left].
    destruct (decide (dependency_key (Py.strip g) (Py.strip a) = k)) as [<-|Hne].
    + rewrite lookup_insert_eq in Hk. injection Hk as <-.
      right. exists block, g, a, ver. split_and!; try done. left.
    + rewrite lookup_insert_ne in Hk by done. by left.
  - right. exists b, g, a, ver. split; [by right|done].
Qed.

(** C4. On a text that is not empty and that the parser rejects, the
    structural extractor raises the parser's exception.  An exception of
    the extractor on the text before or after a modification of [pom.xml]
    ends the run: no report is written.  The pattern-based extractor is a
    function to snapshots, it has no exception to raise, and every pair
    of its snapshot comes from a block that its three patterns match. *)
Theorem unparseable_text_aborts `{SetOrder} fromstring :
  (∀ text,
     text ≠ "" → fromstring text = Raise XMLSyntaxError →
     _parse_pom_dependencies fromstring (Some text) = Raise XMLSyntaxError)
  ∧ (∀ Repository owner repo cs1 commit cs2 st1 fs1 modification fs2 st2 e,
       Repository (repo_url owner repo) = cs1 ++ commit :: cs2 →
       for_each (mine_commit fromstring) (mkMining [] ∅) cs1 = Ok st1 →
       PyDriller.modified_files commit = fs1 ++ modification :: fs2 →
       for_each (mine_file fromstring commit) st1 fs1 = Ok st2 →
       PyDriller.filename modification = "pom.xml" →
       _parse_pom_dependencies fromstring
         (PyDriller.source_code_before modification) = Raise e
       ∨ (∃ old_deps,
            _parse_pom_dependencies fromstring
              (PyDriller.source_code_before modification) = Ok old_deps)
         ∧ _parse_pom_dependencies fromstring
             (PyDriller.source_code modification) = Raise e →
       ∃ stdout,
         mine_repository fromstring Repository owner repo = Aborted stdout e)
  ∧ (∀ pom_xml_text k v,
       _parse_dependency_blocks pom_xml_text !! k = Some v →
       ∃ text block g a ver,
         pom_xml_text = Some text
         ∧ block ∈ Re.findall_dependency text
         ∧ Re.search_element "groupId" block = Some g
         ∧ Re.search_element "artifactId" block = Some a
         ∧ Re.search_element "version" block = Some ver
         ∧ k = dependency_key (Py.strip g) (Py.strip a)
         ∧ v = Some (Py.strip ver)).
Proof.
  split_and!.
  - intros text Htext Hraise. unfold _parse_pom_dependencies.
    destruct text; [done|]. simpl. by rewrite Hraise.
  - intros Repository owner repo cs1 commit cs2 st1 fs1 modification fs2 st2 e
      Hrepo Hcs1 Hfiles Hfs1 Hname Hraise.
    assert (Hfile : mine_file fromstring commit st2 modification = Raise e).
    { unfold mine_file. rewrite decide_False by (by intros ?).
      destruct Hraise as [->|[[old_deps ->] ->]]; done. }
    assert (Hcommit : mine_commit fromstring st1 commit = Raise e).
    { unfold mine_commit. rewrite Hfiles. by eapply for_each_raise. }
    unfold mine_repository. fold (repo_url owner repo). rewrite Hrepo.
    unfold mine_commits. rewrite (for_each_raise _ _ _ _ _ _ _ Hcs1 Hcommit).
    by eexists.
  - intros [text|] k v; simpl; [|by rewrite lookup_empty].
    destruct (_ || _); [by rewrite lookup_empty|].
    intros [Hempty|(block & g & a & ver & Hb)]%blocks_keys.
    + by rewrite lookup_empty in Hempty.
    + by exists text, block, g, a, ver.
Qed.

(** A start tag without its end tag is not a document: a commit that
    leaves [pom.xml] in this state ends the run, although the pattern-based
    extractor reads the entry of the same text. *)
Lemma unparseable_text_aborts_witness :
  let broken := "<project><dependency><groupId>g</groupId><artifactId>a</artifactId><version>1</version></dependency>" in
  let commit := sample_commit "c4" "pom.xml" (Some pom_one) (Some broken) in
  _parse_pom_dependencies Lxml.fromstring (Some broken) = Raise XMLSyntaxError
  ∧ (∃ stdout,
       mine_repository Lxml.fromstring (fun _ => [commit]) "o" "r"
       = Aborted stdout XMLSyntaxError)
  ∧ _parse_dependency_blocks (Some broken) = {["g:a" := Some "1"]}
  ∧ ∃ text block g a ver,
      Some broken = Some text
      ∧ block ∈ Re.findall_dependency text
      ∧ Re.search_element "groupId" block = Some g
      ∧ Re.search_element "artifactId" block = Some a
      ∧ Re.search_element "version" block = Some ver
      ∧ "g:a" = dependency_key (Py.strip g) (Py.strip a)
      ∧ Some "1" = Some (Py.strip ver).
Proof.
  intros broken commit.
  destruct (unparseable_text_aborts Lxml.fromstring) as (Hraise & Hrun & Hre).
  split_and!.
  - apply Hraise; [discriminate|by vm_compute].
  - apply (Hrun (fun _ => [commit]) "o" "r" [] commit [] (mkMining [] ∅) []
             (sample_file "pom.xml" (Some pom_one) (Some broken)) []
             (mkMining [] ∅)).
    all: try reflexivity.
    right. split; [eexists|]; by vm_compute.
  - by vm_compute.
  - apply (Hre (Some broken) "g:a" (Some "1")). by vm_compute.
Defined.

(** ** The two extractors compared *)

Lemma plain_app x y : plain (x +:+ y) = plain x && plain y.
Proof.
  induction x as [|c x IH]; simpl; [done|]. by rewrite IH, andb_assoc.
Qed.

Lemma starts_with_app p s : Re.starts_with p (p +:+ s) = Some s.
Proof.
  induction p as [|c p IH]; simpl; [done|]. by rewrite decide_True.
Qed.

Lemma length_append (x y : string) :
  String.length (x +:+ y) = String.length x + String.length y.
Proof. induction x as [|c x IH]; simpl; [done|]. by rewrite IH. Qed.

(** *** What a scan passes over *)

Lemma unmatched_nil lit : unmatched lit "".
Proof. by intros s b r. Qed.

Lemma unmatched_app lit w1 w2 :
  unmatched lit w1 → unmatched lit w2 → unmatched lit (w1 +:+ w2).
Proof.
  intros H1 H2 s b r Hs. rewrite !append_assoc. by apply H1, H2.
Qed.

Lemma unmatched_plain lit w : plain w = true → unmatched (String "<" lit) w.
Proof.
  intros Hw s b r Hs. induction w as [|c w IH]; simpl; [done|].
  simpl in Hw. apply andb_true_iff in Hw as [Hc Hw].
  apply negb_true_iff, bool_decide_eq_false in Hc.
  rewrite decide_False by congruence. by rewrite (IH Hw).
Qed.

Lemma unmatched_tags :
  Forall (unmatched "</dependency>")
    ["<groupId>"; "</groupId>"; "<artifactId>"; "</artifactId>";
     "<version>"; "</version>"].
Proof. repeat constructor; intros s b r Hs; simpl; by rewrite Hs. Qed.

Lemma inert_app w1 w2 : inert w1 → inert w2 → inert (w1 +:+ w2).
Proof. intros H1 H2 s. by rewrite append_assoc, H1, H2. Qed.

Lemma inert_plain w : plain w = true → inert w.
Proof.
  intros Hw s. induction w as [|c w IH]; simpl; [done|].
  simpl in Hw. apply andb_true_iff in Hw as [Hc Hw].
  apply negb_true_iff, bool_decide_eq_false in Hc.
  unfold Re.match_dependency. simpl.
  rewrite decide_False by congruence. by apply IH.
Qed.

Lemma inert_tags :
  Forall inert ["<project"; "<project>"; "<dependencies>"; "</dependencies>";
                "</project>"].
Proof. repeat constructor; intros s; reflexivity. Qed.

Lemma findall_go_skip w s :
  Re.findall_go (String.length w) (w +:+ s) = Re.findall_go 0 s.
Proof. induction w as [|c w IH]; simpl; [by destruct s|done]. Qed.

(** A block is found, and the scan goes on behind it. *)
Lemma findall_block body rest :
  unmatched "</dependency>" body →
  Re.findall_go 0 ("<dependency>" +:+ body +:+ "</dependency>" +:+ rest)
  = body :: Re.findall_go 0 rest.
Proof.
  intros Hbody.
  assert (Hlazy : Re.lazy_until "</dependency>" (body +:+ "</dependency>" +:+ rest)
                  = Some (body, rest)).
  { rewrite <- (append_nil_r body) at 2. apply Hbody.
    change (Re.lazy_until "</dependency>" ("</dependency>" +:+ rest))
      with (match Re.starts_with "</dependency>" ("</dependency>" +:+ rest) with
            | Some r => Some (EmptyString, r)
            | None => None
            end).
    by rewrite starts_with_app. }
  assert (Hmatch : Re.match_dependency
            ("<dependency>" +:+ body +:+ "</dependency>" +:+ rest)
          = Some (body, 12 + String.length body + 13)).
  { unfold Re.match_dependency. by rewrite starts_with_app, Hlazy. }
  change (Re.findall_go 0 ("<dependency>" +:+ body +:+ "</dependency>" +:+ rest))
    with (match Re.match_dependency
                  ("<dependency>" +:+ body +:+ "</dependency>" +:+ rest) with
          | Some (block, len) =>
              block :: Re.findall_go (pred len)
                         ("dependency>" +:+ body +:+ "</dependency>" +:+ rest)
          | None => Re.findall_go 0 ("dependency>" +:+ body +:+ "</dependency>" +:+ rest)
          end).
  rewrite Hmatch. f_equal.
  replace ("dependency>" +:+ body +:+ "</dependency>" +:+ rest)
    with (("dependency>" +:+ body +:+ "</dependency>") +:+ rest)
    by (by rewrite !append_assoc).
  replace (pred (12 + String.length body + 13))
    with (String.length ("dependency>" +:+ body +:+ "</dependency>")).
  - apply findall_go_skip.
  - rewrite !length_append. simpl. lia.
Qed.

Lemma passed_app tag w1 w2 : passed tag w1 → passed tag w2 → passed tag (w1 +:+ w2).
Proof. intros H1 H2 s. by rewrite append_assoc, H1, H2. Qed.

Lemma passed_plain tag w : plain w = true → passed tag w.
Proof.
  intros Hw s. induction w as [|c w IH]; simpl; [done|].
  simpl in Hw. apply andb_true_iff in Hw as [Hc Hw].
  apply negb_true_iff, bool_decide_eq_false in Hc.
  unfold Re.match_element. simpl.
  rewrite decide_False by congruence. by apply IH.
Qed.

Lemma run_not_lt_plain t rest :
  plain t = true → Re.run_not_lt (t +:+ String "<" rest) = (t, String "<" rest).
Proof.
  intros Ht. induction t as [|c t IH]; simpl; [done|].
  simpl in Ht. apply andb_true_iff in Ht as [Hc Ht].
  apply negb_true_iff, bool_decide_eq_false in Hc.
  rewrite decide_False by done. by rewrite (IH Ht).
Qed.

(** The element pattern matches an element with plain, non-empty text. *)
Lemma search_element_found tag t rest :
  plain t = true → t ≠ "" →
  Re.search_element tag
    (("<" +:+ tag +:+ ">") +:+ t +:+ ("</" +:+ tag +:+ ">") +:+ rest)
  = Some t.
Proof.
  intros Ht Hne.
  assert (Hm : Re.match_element tag
            (("<" +:+ tag +:+ ">") +:+ t +:+ ("</" +:+ tag +:+ ">") +:+ rest)
          = Some t).
  { unfold Re.match_element. rewrite starts_with_app.
    change (("</" +:+ tag +:+ ">") +:+ rest)
      with (String "<" (("/" +:+ tag +:+ ">") +:+ rest)).
    rewrite run_not_lt_plain by done.
    destruct t as [|c t]; [done|].
    change (String "<" (("/" +:+ tag +:+ ">") +:+ rest))
      with (("</" +:+ tag +:+ ">") +:+ rest).
    by rewrite starts_with_app. }
  simpl. simpl in Hm. by rewrite Hm.
Qed.

Lemma filled_plain s : filled s = true → plain s = true ∧ s ≠ "".
Proof. by destruct s. Qed.

Ltac entry_facts e He :=
  unfold entry_ok in He;
  repeat (apply andb_true_iff in He as [He ?]);
  destruct (ce_version e) as [v|] eqn:Hversion;
  repeat match goal with
         | Hf : filled _ = true |- _ => apply filled_plain in Hf as [? ?]
         end.

(** *** The pattern-based extractor on a canonical document *)

Lemma block_unmatched e : entry_ok e = true → unmatched "</dependency>" (block e).
Proof.
  intros He.
  pose proof unmatched_tags as Htags.
  repeat (apply Forall_cons in Htags as [? Htags]).
  unfold block, version_part.
  entry_facts e He;
    repeat (apply unmatched_app; [by (assumption || apply unmatched_plain)|]);
    by (apply unmatched_nil || apply unmatched_plain).
Qed.

Lemma findall_entries es tail :
  forallb entry_ok es = true →
  Re.findall_go 0 (render_entries es tail)
  = (block <$> es) ++ Re.findall_go 0 tail.
Proof.
  induction es as [|e es IH]; intros Hes; [done|].
  simpl in Hes. apply andb_true_iff in Hes as [He Hes].
  change (Re.findall_go 0 ("<dependency>" +:+ block e +:+ "</dependency>"
            +:+ ce_gap4 e +:+ render_entries es tail) = 
          block e :: ((block <$> es) ++ Re.findall_go 0 tail)).
  rewrite findall_block by (by apply block_unmatched).
  entry_facts e He; rewrite (inert_plain (ce_gap4 e)) by done; by rewrite IH.
Qed.

Lemma findall_render doc :
  canonical_ok doc = true →
  Re.findall_dependency (render doc) = block <$> c_entries doc.
Proof.
  unfold canonical_ok. intros Hdoc.
  repeat (apply andb_true_iff in Hdoc as [Hdoc ?]).
  pose proof inert_tags as Htags.
  repeat (apply Forall_cons in Htags as [? Htags]).
  assert (Hattr : inert (xmlns_attribute (c_xmlns doc))).
  { destruct (c_xmlns doc) as [uri|]; [|by intros s].
    apply filled_plain in Hdoc as [Huri _].
    apply inert_plain. simpl. by rewrite plain_app, Huri. }
  unfold Re.findall_dependency, render.
  repeat match goal with
         | Hi : inert ?w |- context [Re.findall_go 0 (?w +:+ ?s)] =>
             rewrite (Hi s)
         | |- context [Re.findall_go 0 (">" +:+ ?s)] =>
             rewrite (inert_plain ">" eq_refl s)
         | Hp : plain ?w = true |- context [Re.findall_go 0 (?w +:+ ?s)] =>
             rewrite (inert_plain w Hp s)
         end.
  rewrite findall_entries by done.
  repeat match goal with
         | Hi : inert ?w |- context [Re.findall_go 0 (?w +:+ ?s)] =>
             rewrite (Hi s)
         | Hp : plain ?w = true |- context [Re.findall_go 0 (?w +:+ ?s)] =>
             rewrite (inert_plain w Hp s)
         end.
  replace (Re.findall_go 0 "</project>") with (@nil string) by done.
  by rewrite app_nil_r.
Qed.

Lemma passed_tags :
  Forall (passed "artifactId") ["<groupId>"; "</groupId>"]
  ∧ Forall (passed "version")
      ["<groupId>"; "</groupId>"; "<artifactId>"; "</artifactId>"].
Proof. split; repeat constructor; intros s; reflexivity. Qed.

Ltac pass_over :=
  repeat match goal with
         | Hi : passed ?tag ?w |- context [Re.search_element ?tag (?w +:+ ?s)] =>
             rewrite (Hi s)
         | Hp : plain ?w = true |- context [Re.search_element ?tag (?w +:+ ?s)] =>
             rewrite (passed_plain tag w Hp s)
         end.

Lemma block_step_block d e :
  entry_ok e = true → block_step d (block e) = assign_matched d e.
Proof.
  intros He.
  destruct passed_tags as [Ha Hv].
  repeat (apply Forall_cons in Ha as [? Ha]).
  repeat (apply Forall_cons in Hv as [? Hv]).
  unfold block_step, block, version_part, assign_matched, assign.
  entry_facts e He.
  - assert (Hg : Re.search_element "groupId"
              (ce_gap0 e +:+ "<groupId>" +:+ ce_group e +:+ "</groupId>"
               +:+ ce_gap1 e +:+ "<artifactId>" +:+ ce_artifact e
               +:+ "</artifactId>" +:+ ce_gap2 e +:+ "<version>"
               +:+ v +:+ "</version>" +:+ ce_gap3 e)
            = Some (ce_group e)).
    { pass_over. by apply (search_element_found "groupId"). }
    assert (Hart : Re.search_element "artifactId"
              (ce_gap0 e +:+ "<groupId>" +:+ ce_group e +:+ "</groupId>"
               +:+ ce_gap1 e +:+ "<artifactId>" +:+ ce_artifact e
               +:+ "</artifactId>" +:+ ce_gap2 e +:+ "<version>"
               +:+ v +:+ "</version>" +:+ ce_gap3 e)
            = Some (ce_artifact e)).
    { pass_over. by apply (search_element_found "artifactId"). }
    assert (Hver : Re.search_element "version"
              (ce_gap0 e +:+ "<groupId>" +:+ ce_group e +:+ "</groupId>"
               +:+ ce_gap1 e +:+ "<artifactId>" +:+ ce_artifact e
               +:+ "</artifactId>" +:+ ce_gap2 e +:+ "<version>"
               +:+ v +:+ "</version>" +:+ ce_gap3 e)
            = Some v).
    { pass_over. by apply (search_element_found "version"). }
    by rewrite Hg, Hart, Hver.
  - assert (Hver : Re.search_element "version"
              (ce_gap0 e +:+ "<groupId>" +:+ ce_group e +:+ "</groupId>"
               +:+ ce_gap1 e +:+ "<artifactId>" +:+ ce_artifact e
               +:+ "</artifactId>" +:+ ce_gap2 e +:+ "")
            = None).
    { by pass_over. }
    rewrite Hver. by repeat case_match.
Qed.

Lemma foldl_block_step es :
  forallb entry_ok es = true →
  ∀ d, foldl block_step d (block <$> es) = foldl assign_matched d es.
Proof.
  induction es as [|e es IH]; intros Hes d; [done|].
  simpl in Hes. apply andb_true_iff in Hes as [He Hes].
  simpl. rewrite block_step_block by done. by apply IH.
Qed.

Lemma render_truthy doc :
  Py.truthy (Some (render doc)) = true
  ∧ Py.truthy (Some (Py.strip (render doc))) = true.
Proof.
  unfold render. simpl. split; [done|].
  unfold Py.strip. simpl. by destruct (Py.rstrip _).
Qed.

Lemma blocks_canonical doc :
  canonical_ok doc = true →
  _parse_dependency_blocks (Some (render doc))
  = foldl assign_matched ∅ (c_entries doc).
Proof.
  intros Hdoc. unfold _parse_dependency_blocks.
  destruct (render_truthy doc) as [-> ->]. simpl.
  rewrite findall_render by done.
  apply foldl_block_step.
  unfold canonical_ok in Hdoc. by apply andb_true_iff in Hdoc as [_ ?].
Qed.

(** *** The structural extractor on a canonical document *)

Lemma clark_test ns x y :
  bool_decide (Lxml.clark ns x = Lxml.clark ns y) = bool_decide (x = y).
Proof.
  apply bool_decide_ext. destruct ns as [uri|]; simpl; [|done].
  split; [|by intros ->]. intros [= Heq].
  apply (inj (String.append uri)) in Heq. by injection Heq.
Qed.

Lemma qualified_clark ns name :
  match ns with Some uri => filled uri | None => true end = true →
  qualified ns name = Lxml.clark ns name.
Proof. destruct ns as [[|c uri]|]; done. Qed.

Lemma filter_element ns x y t cs l :
  filter (fun el => tag el = Lxml.clark ns x) (element ns y t cs :: l)
  = if bool_decide (y = x)
    then element ns y t cs :: filter (fun el => tag el = Lxml.clark ns x) l
    else filter (fun el => tag el = Lxml.clark ns x) l.
Proof.
  rewrite filter_cons. simpl. by rewrite decide_bool_decide, clark_test.
Qed.

Lemma find_entry ns e :
  find (Lxml.clark ns "groupId") (entry_tree ns e)
  = Some (element ns "groupId" (Some (ce_group e)) [])
  ∧ find (Lxml.clark ns "artifactId") (entry_tree ns e)
    = Some (element ns "artifactId" (Some (ce_artifact e)) [])
  ∧ find (Lxml.clark ns "version") (entry_tree ns e)
    = (fun v => element ns "version" (Some v) []) <$> ce_version e.
Proof.
  unfold find, entry_tree.
  change (children (element ns "dependency" ?t ?cs)) with cs.
  destruct (ce_version e); by rewrite !filter_element.
Qed.

Lemma filter_entry_children ns e :
  filter (fun el => tag el = Lxml.clark ns "dependency")
    (flat_map iter (children (entry_tree ns e))) = [].
Proof.
  unfold entry_tree.
  change (children (element ns "dependency" ?t ?cs)) with cs.
  destruct (ce_version e) as [v|].
  - change (flat_map iter ?l) with
      [element ns "groupId" (Some (ce_group e)) [];
       element ns "artifactId" (Some (ce_artifact e)) [];
       element ns "version" (Some v) []].
    by rewrite !filter_element.
  - change (flat_map iter ?l) with
      [element ns "groupId" (Some (ce_group e)) [];
       element ns "artifactId" (Some (ce_artifact e)) []].
    by rewrite !filter_element.
Qed.

Lemma findall_entry_trees ns es :
  filter (fun el => tag el = Lxml.clark ns "dependency")
    (flat_map iter (entry_tree ns <$> es))
  = entry_tree ns <$> es.
Proof.
  induction es as [|e es IH]; [done|].
  rewrite fmap_cons.
  change (flat_map iter (entry_tree ns e :: (entry_tree ns <$> es)))
    with (([entry_tree ns e] ++ flat_map iter (children (entry_tree ns e)))
          ++ flat_map iter (entry_tree ns <$> es)).
  rewrite !filter_app, IH, filter_entry_children.
  unfold entry_tree at 1. by rewrite filter_element.
Qed.

Lemma findall_tree doc :
  findall (Lxml.clark (c_xmlns doc) "dependency") (tree_of doc)
  = entry_tree (c_xmlns doc) <$> c_entries doc.
Proof.
  unfold findall.
  change (flat_map iter (children (tree_of doc)))
    with ([element (c_xmlns doc) "dependencies" (text_of (c_gap1 doc))
             (entry_tree (c_xmlns doc) <$> c_entries doc)]
          ++ (flat_map iter (entry_tree (c_xmlns doc) <$> c_entries doc) ++ [])).
  rewrite app_nil_r, filter_app, filter_element, findall_entry_trees. done.
Qed.

Lemma dependency_step_entry ns d e :
  match ns with Some uri => filled uri | None => true end = true →
  dependency_step ns d (entry_tree ns e) = Ok (assign d e).
Proof.
  intros Hns. unfold dependency_step.
  rewrite !qualified_clark by done.
  destruct (find_entry ns e) as (-> & -> & ->). unfold assign.
  by destruct (ce_version e).
Qed.

Lemma loop_entry_trees ns es :
  match ns with Some uri => filled uri | None => true end = true →
  ∀ d, for_each (dependency_step ns) d (entry_tree ns <$> es)
       = Ok (foldl assign d es).
Proof.
  intros Hns. induction es as [|e es IH]; intros d; [done|].
  simpl. rewrite dependency_step_entry by done. apply IH.
Qed.

Lemma tree_canonical doc :
  canonical_ok doc = true →
  tree_dependencies (tree_of doc) = Ok (foldl assign ∅ (c_entries doc)).
Proof.
  unfold canonical_ok. intros Hdoc.
  repeat (apply andb_true_iff in Hdoc as [Hdoc ?]).
  unfold tree_dependencies.
  change (nsmap_None (tree_of doc)) with (c_xmlns doc).
  rewrite qualified_clark by done. rewrite findall_tree.
  by apply loop_entry_trees.
Qed.

Lemma foldl_assign_matched es :
  Forall (fun e => ce_version e ≠ None) es →
  ∀ d, foldl assign_matched d es = foldl assign d es.
Proof.
  induction 1 as [|e es He _ IH]; intros d; [done|].
  simpl. rewrite <- IH. unfold assign_matched. by destruct (ce_version e).
Qed.

(** The canonical documents in which every entry has a version are a
    family of texts on which the two extractors agree, for every parser
    that reads them as their tree. *)
Theorem extractors_agree_on_canonical fromstring doc :
  canonical_ok doc = true →
  Forall (fun e => ce_version e ≠ None) (c_entries doc) →
  fromstring (render doc) = Ok (tree_of doc) →
  _parse_pom_dependencies fromstring (Some (render doc))
  = Ok (_parse_dependency_blocks (Some (render doc))).
Proof.
  intros Hdoc Hversions Htree.
  rewrite (parse_parsed fromstring (render doc) (tree_of doc)); [|done|done].
  by rewrite tree_canonical, blocks_canonical, foldl_assign_matched.
Qed.

(** A document with a default namespace, indented entries and an entry
    on one line: both extractors read two pairs. *)
Lemma extractors_agree_on_canonical_witness :
  canonical_ok pom_canonical = true
  ∧ Lxml.fromstring (render pom_canonical) = Ok (tree_of pom_canonical)
  ∧ _parse_pom_dependencies Lxml.fromstring (Some (render pom_canonical))
    = Ok (_parse_dependency_blocks (Some (render pom_canonical)))
  ∧ _parse_dependency_blocks (Some (render pom_canonical))
    = {["org.slf4j:slf4j-api" := Some "2.0.9"; "junit:junit" := Some "4.13"]}.
Proof.
  split; [vm_compute; reflexivity|]. split; [vm_compute; reflexivity|]. split.
  - apply extractors_agree_on_canonical.
    + vm_compute; reflexivity.
    + repeat constructor; discriminate.
    + vm_compute; reflexivity.
  - vm_compute; reflexivity.
Defined.


(** *** Agreement entry by entry *)










(** Every entry of [pom_exclusions] has a version, and the texts still
    differ: the element patterns capture the identifiers of the exclusion,
    which stand first in the block, the structural extractor reads the
    children of the entry. *)
Lemma extractors_differ_on_exclusions :
  (∃ tree, Lxml.fromstring pom_exclusions = Ok tree)
  ∧ _parse_pom_dependencies Lxml.fromstring (Some pom_exclusions)
    = Ok {["g:a" := Some "1.0"]}
  ∧ _parse_dependency_blocks (Some pom_exclusions) = {["x:y" := Some "1.0"]}.
Proof.
  split; [eexists; vm_compute; reflexivity|].
  split; vm_compute; reflexivity.
Qed.

(** * Further properties *)

(** ** The rows of a comparison *)

Lemma set_iter_empty `{SetOrder} : set_iter ∅ = [].
Proof.
  apply Permutation_nil_r. rewrite set_iter_perm. by rewrite elements_empty.
Qed.

Lemma extended_app commit e1 e2 st :
  extended commit e2 (extended commit e1 st) = extended commit (e1 ++ e2) st.
Proof.
  unfold extended. simpl. by rewrite touched_app, app_assoc.
Qed.

Lemma extended_nil commit st : extended commit [] st = st.
Proof. unfold extended. simpl. rewrite app_nil_r. by destruct st. Qed.

Lemma foldl_extended commit change_type l st :
  foldl (record_change commit change_type) st l
  = extended commit (change_record commit change_type <$> l) st.
Proof. rewrite foldl_record_change. unfold extended. by destruct l. Qed.

Section Rows.

Context `{SetOrder}.

Lemma classified_both commit (old_deps new_deps : snapshot) k old_v new_v :
  old_deps !! k = Some old_v → new_deps !! k = Some new_v →
  classified commit old_deps new_deps k
  = if decide (old_v ≠ new_v)
    then [change_record commit (changed_from_to old_v new_v) k]
    else [].
Proof.
  intros Ho Hn. unfold classified. rewrite Ho, Hn.
  destruct (decide (old_v = new_v)); [by rewrite decide_False by auto|].
  by rewrite decide_True.
Qed.

Lemma changed_loop_rows commit (old_deps new_deps : snapshot) (l : list string) :
  ∀ st, (∀ k, k ∈ l → k ∈ dom old_deps ∩ dom new_deps) →
  for_each (record_if_changed commit old_deps new_deps) st l
  = Ok (extended commit (flat_map (classified commit old_deps new_deps) l) st).
Proof.
  induction l as [|dep l IH]; intros st Hdom; simpl.
  - by rewrite extended_nil.
  - assert (Hin : dep ∈ dom old_deps ∩ dom new_deps) by (apply Hdom; left).
    apply elem_of_intersection in Hin as [[old_v Ho]%elem_of_dom [new_v Hn]%elem_of_dom].
    rewrite (record_if_changed_eq _ _ _ _ _ _ _ Ho Hn). simpl.
    rewrite IH by (intros k Hk; apply Hdom; by right).
    rewrite (classified_both _ _ _ _ _ _ Ho Hn).
    destruct (decide (old_v ≠ new_v)); [|done].
    change (record_change commit (changed_from_to old_v new_v) st dep)
      with (extended commit
              [change_record commit (changed_from_to old_v new_v) dep] st).
    by rewrite extended_app.
Qed.

(** The comparison appends [emitted_rows] and touches the commit when
    there is one. *)
Lemma compare_snapshots_rows commit (old_deps new_deps : snapshot) st :
  compare_snapshots commit old_deps new_deps st
  = Ok (extended commit (emitted_rows commit old_deps new_deps) st).
Proof.
  unfold compare_snapshots, emitted_rows.
  rewrite changed_loop_rows by (intros k; apply elem_of_set_iter).
  by rewrite !foldl_extended, !extended_app, <- ?app_assoc.
Qed.

End Rows.

Section Rows2.

Context `{SetOrder}.

Lemma length_set_iter (s : gset string) : length (set_iter s) = size s.
Proof. by rewrite set_iter_perm. Qed.

Lemma records_of_emitted commit (old_deps new_deps : snapshot) k :
  records_of k (emitted_rows commit old_deps new_deps)
  = classified commit old_deps new_deps k.
Proof.
  destruct (compare_snapshots_spec commit old_deps new_deps (mkMining [] ∅))
    as (emitted & Hrun & _ & Hrec).
  rewrite compare_snapshots_rows in Hrun. injection Hrun as Hrows _.
  simpl in Hrows. by rewrite Hrows.
Qed.

Lemma emitted_rows_same commit (d : snapshot) : emitted_rows commit d d = [].
Proof.
  unfold emitted_rows. rewrite difference_diag_L, set_iter_empty. simpl.
  assert (Hall : ∀ l : list string,
            (∀ k, k ∈ l → k ∈ dom d) →
            flat_map (classified commit d d) l = []).
  { induction l as [|k l IH]; intros Hl; [done|]. simpl.
    destruct (proj1 (elem_of_dom d k) (Hl k ltac:(left))) as [v Hv].
    rewrite (classified_both _ _ _ _ _ _ Hv Hv).
    rewrite decide_False by auto. apply IH. intros k' Hk'. apply Hl. by right. }
  apply Hall. intros k. rewrite elem_of_set_iter. set_solver.
Qed.

(** X1. The comparison leaves the state as it is exactly when the two
    snapshots are equal: equal snapshots give no record, and any
    difference, be it a key or a version, gives at least one. *)
Theorem comparison_silent_iff_equal commit (old_deps new_deps : snapshot) st :
  compare_snapshots commit old_deps new_deps st = Ok st ↔ old_deps = new_deps.
Proof.
  rewrite compare_snapshots_rows. split.
  - intros [= Hst]. apply (f_equal rows) in Hst. simpl in Hst.
    rewrite <- (app_nil_r (rows st)) in Hst at 2.
    apply app_inv_head in Hst.
    apply map_eq. intros k.
    pose proof (records_of_emitted commit old_deps new_deps k) as Hk.
    rewrite Hst in Hk. unfold classified in Hk.
    destruct (old_deps !! k) as [old_v|], (new_deps !! k) as [new_v|];
      try done.
    destruct (decide (old_v = new_v)); [by subst|done].
  - intros ->. by rewrite emitted_rows_same, extended_nil.
Qed.

(** X2. The number of records of a comparison is the number of keys that
    only the new snapshot has, plus the number of keys that only the old
    snapshot has, plus the number of common keys whose versions differ. *)
Theorem comparison_count commit (old_deps new_deps : snapshot) :
  (∀ st, compare_snapshots commit old_deps new_deps st
         = Ok (extended commit (emitted_rows commit old_deps new_deps) st))
  ∧ length (emitted_rows commit old_deps new_deps)
    = size (dom new_deps ∖ dom old_deps) + size (dom old_deps ∖ dom new_deps)
      + size (filter (fun k => old_deps !! k ≠ new_deps !! k)
                (dom old_deps ∩ dom new_deps)).
Proof.
  split; [intros st; apply compare_snapshots_rows|].
  unfold emitted_rows. rewrite !length_app, !length_fmap, !length_set_iter.
  rewrite <- Nat.add_assoc. do 2 f_equal.
  assert (Hlen : ∀ l : list string,
            (∀ k, k ∈ l → k ∈ dom old_deps ∩ dom new_deps) →
            length (flat_map (classified commit old_deps new_deps) l)
            = length (filter (fun k => old_deps !! k ≠ new_deps !! k) l)).
  { induction l as [|k l IH]; intros Hl; [done|]. simpl.
    assert (Hin : k ∈ dom old_deps ∩ dom new_deps) by (apply Hl; left).
    apply elem_of_intersection in Hin
      as [[old_v Ho]%elem_of_dom [new_v Hn]%elem_of_dom].
    rewrite length_app, (classified_both _ _ _ _ _ _ Ho Hn), filter_cons.
    rewrite IH by (intros k' Hk'; apply Hl; by right).
    rewrite Ho, Hn.
    destruct (decide (old_v ≠ new_v)) as [Hne|Heq].
    - rewrite decide_True by congruence. done.
    - rewrite decide_False; [done|]. intros Hne. apply Heq. congruence. }
  rewrite Hlen by (intros k; apply elem_of_set_iter).
  rewrite (set_iter_perm (dom old_deps ∩ dom new_deps)).
  unfold filter at 2, set_filter.
  rewrite size_list_to_set; [done|].
  apply NoDup_filter, NoDup_elements.
Qed.

(** X3. Exchanging the two snapshots exchanges additions and removals:
    a key has an ["added"] record in one direction exactly when it has a
    ["removed"] record in the other, and no record in one direction
    exactly when it has none in the other. *)
Theorem comparison_reversed commit (old_deps new_deps : snapshot) k :
  (∀ st, compare_snapshots commit old_deps new_deps st
         = Ok (extended commit (emitted_rows commit old_deps new_deps) st))
  ∧ (∀ st, compare_snapshots commit new_deps old_deps st
           = Ok (extended commit (emitted_rows commit new_deps old_deps) st))
  ∧ (records_of k (emitted_rows commit old_deps new_deps)
     = [change_record commit "added" k]
     ↔ records_of k (emitted_rows commit new_deps old_deps)
       = [change_record commit "removed" k])
  ∧ (records_of k (emitted_rows commit old_deps new_deps) = []
     ↔ records_of k (emitted_rows commit new_deps old_deps) = []).
Proof.
  split; [intros st; apply compare_snapshots_rows|].
  split; [intros st; apply compare_snapshots_rows|].
  rewrite !records_of_emitted. unfold classified.
  destruct (old_deps !! k) as [old_v|], (new_deps !! k) as [new_v|];
    try (split; split; done).
  destruct (decide (old_v = new_v)) as [->|Hne].
  - rewrite decide_True by done. split; split; done.
  - rewrite (decide_False (P := new_v = old_v)) by congruence.
    split; split; intros [= Heq]; discriminate.
Qed.

End Rows2.

(** ** The traversal as a collection of rows *)

Lemma collect_app {A B : Type} (f : A → result (list B)) l1 l2 :
  collect f (l1 ++ l2)
  = r1 ← collect f l1; r2 ← collect f l2; Ok (r1 ++ r2).
Proof.
  induction l1 as [|x l1 IH]; simpl.
  - destruct (collect f l2); done.
  - destruct (f x) as [r|]; [simpl|done]. rewrite IH.
    destruct (collect f l1) as [r1|]; [simpl|done].
    destruct (collect f l2) as [r2|]; [simpl|done].
    by rewrite app_assoc.
Qed.

Section Collection.

Context `{SetOrder}.
Variable fromstring : string → result Element.

Lemma mine_file_rows commit st modification :
  mine_file fromstring commit st modification
  = (fun emitted => extended commit emitted st)
      <$> file_rows fromstring commit modification.
Proof.
  unfold mine_file, file_rows, is_pom.
  destruct (decide (PyDriller.filename modification = "pom.xml")) as [Hp|Hp].
  - rewrite decide_False by auto.
    destruct (_parse_pom_dependencies _ (PyDriller.source_code_before _))
      as [old_deps|]; [simpl|done].
    destruct (_parse_pom_dependencies _ (PyDriller.source_code _))
      as [new_deps|]; [simpl|done].
    apply compare_snapshots_rows.
  - rewrite decide_True by done. simpl. by rewrite extended_nil.
Qed.

Lemma mine_files_rows commit files :
  ∀ st, for_each (mine_file fromstring commit) st files
        = (fun emitted => extended commit emitted st)
            <$> collect (file_rows fromstring commit) files.
Proof.
  induction files as [|modification files IH]; intros st; simpl.
  - by rewrite extended_nil.
  - rewrite mine_file_rows.
    destruct (file_rows fromstring commit modification) as [r|]; [simpl|done].
    rewrite IH.
    destruct (collect _ files) as [rs|]; [simpl|done].
    by rewrite extended_app.
Qed.

Lemma mine_commit_rows st commit :
  mine_commit fromstring st commit
  = (fun emitted => extended commit emitted st)
      <$> commit_rows fromstring commit.
Proof. apply mine_files_rows. Qed.

Lemma file_rows_records commit modification emitted :
  file_rows fromstring commit modification = Ok emitted →
  Forall (record_of_commit commit) emitted.
Proof.
  intros Hrows.
  pose proof (mine_file_rows commit (mkMining [] ∅) modification) as Hrun.
  rewrite Hrows in Hrun. simpl in Hrun.
  apply mine_file_gained in Hrun as (em & Hst & Hall).
  apply (f_equal rows) in Hst. simpl in Hst. by subst.
Qed.

Lemma commit_rows_records commit emitted :
  commit_rows fromstring commit = Ok emitted →
  Forall (record_of_commit commit) emitted.
Proof.
  intros Hrows.
  pose proof (mine_commit_rows (mkMining [] ∅) commit) as Hrun.
  rewrite Hrows in Hrun. simpl in Hrun.
  apply mine_commit_gained in Hrun as (em & Hst & Hall).
  apply (f_equal rows) in Hst. simpl in Hst. by subst.
Qed.

Lemma extended_collected commit emitted rs :
  Forall (record_of_commit commit) emitted →
  extended commit emitted (collected rs) = collected (rs ++ emitted).
Proof.
  intros Hall. unfold extended, collected. simpl. f_equal.
  rewrite (touched_hashes _ _ _ Hall), omap_app, list_to_set_app_L.
  apply (comm_L (∪)).
Qed.

Lemma mine_commits_from commits :
  ∀ rs, for_each (mine_commit fromstring) (collected rs) commits
        = (fun emitted => collected (rs ++ emitted))
            <$> collect (commit_rows fromstring) commits.
Proof.
  induction commits as [|commit commits IH]; intros rs; simpl.
  - by rewrite app_nil_r.
  - rewrite mine_commit_rows.
    destruct (commit_rows fromstring commit) as [r|] eqn:Hr; [simpl|done].
    rewrite extended_collected by (by apply commit_rows_records).
    rewrite IH.
    destruct (collect _ commits) as [rs'|]; [simpl|done].
    by rewrite app_assoc.
Qed.

Lemma mine_commits_collected commits :
  mine_commits fromstring commits
  = collected <$> collect (commit_rows fromstring) commits.
Proof. apply (mine_commits_from commits []). Qed.

(** X4. The traversal keeps no state across files and commits beyond its
    two accumulators: the rows of a run are the rows of its commits one
    after the other, the rows of a commit are those of its modified files
    one after the other, each computed from that file alone, and the set
    of commit identifiers is the set of the hashes in these rows.  The
    exception of a run is the first one that a file raises. *)
Theorem traversal_collects commits :
  mine_commits fromstring commits
  = collected <$> collect (commit_rows fromstring) commits.
Proof. apply mine_commits_collected. Qed.

End Collection.

Lemma collect_Forall {A B : Type} (f : A → result (list B))
    (P : A → B → Prop) l :
  (∀ x r, x ∈ l → f x = Ok r → Forall (P x) r) →
  ∀ rs, collect f l = Ok rs → Forall (fun b => ∃ x, x ∈ l ∧ P x b) rs.
Proof.
  induction l as [|x l IH]; intros Hf rs; simpl.
  - intros [= <-]. constructor.
  - destruct (f x) as [r|] eqn:Hx; [simpl|done].
    destruct (collect f l) as [rs'|] eqn:Hl; [simpl|done].
    intros [= <-]. apply Forall_app. split.
    + eapply Forall_impl; [apply (Hf x r); [left|done]|].
      intros b Hb. exists x. split; [left|done].
    + eapply Forall_impl; [apply IH; [|done]|].
      * intros y r' Hy. apply Hf. by right.
      * intros b (y & Hy & Hb). exists y. split; [by right|done].
Qed.

Lemma length_remove_dups_le (l : list string) :
  length (remove_dups l) ≤ length l.
Proof.
  induction l as [|x l IH]; simpl; [done|].
  case_match; simpl; lia.
Qed.

Lemma length_omap_le {A B : Type} (f : A → option B) (l : list A) :
  length (omap f l) ≤ length l.
Proof.
  induction l as [|x l IH]; simpl; [done|].
  destruct (f x); simpl; [apply le_n_S|apply le_S]; exact IH.
Qed.

Lemma list_to_set_replicate (n : nat) (h : string) :
  (list_to_set (replicate n h) : gset string)
  = match n with O => ∅ | S _ => {[h]} end.
Proof.
  destruct n as [|n]; [done|]. simpl.
  induction n as [|n IH]; simpl.
  - by rewrite (right_id_L ∅ (∪)).
  - rewrite IH. by rewrite (idemp_L (∪)).
Qed.

Section Counting.

Context `{SetOrder}.
Variable fromstring : string → result Element.

(** X5. Every row of a run that returns has the five fields of the
    header and is the record of one of the traversed commits: it starts
    with the hash, the date and the author name of that commit. *)
Theorem rows_of_traversed_commits commits st :
  mine_commits fromstring commits = Ok st →
  Forall (fun row =>
            length row = length header
            ∧ ∃ commit change_type dep,
                commit ∈ commits
                ∧ row = [PyDriller.hash commit;
                         PyDriller.isoformat (PyDriller.committer_date commit);
                         PyDriller.name (PyDriller.author commit);
                         dep; change_type])
    (rows st).
Proof.
  rewrite mine_commits_collected.
  destruct (collect _ commits) as [rs|] eqn:Hrs; [simpl|done].
  intros [= <-]. simpl.
  eapply Forall_impl.
  - apply (collect_Forall _ record_of_commit _
             (fun c r _ Hr => commit_rows_records fromstring c r Hr) _ Hrs).
  - intros row (c & Hc & ty & dep & ->). split; [done|]. by exists c, ty, dep.
Qed.

Lemma collect_hashes commits rs :
  collect (commit_rows fromstring) commits = Ok rs →
  ∀ h, h ∈ omap row_hash rs → h ∈ PyDriller.hash <$> commits.
Proof.
  intros Hrs h Hh.
  apply list_elem_of_omap in Hh as (row & Hrow & Hhash).
  pose proof (collect_Forall _ record_of_commit _
                (fun c r _ Hr => commit_rows_records fromstring c r Hr) _ Hrs)
    as Hall.
  rewrite Forall_forall in Hall.
  destruct (Hall row Hrow) as (c & Hc & ty & dep & ->).
  injection Hhash as <-. by apply list_elem_of_fmap_2.
Qed.

(** X6. The count of the summary is at most the number of traversed
    commits and at most the number of rows. *)
Theorem summary_count_bounds commits st :
  mine_commits fromstring commits = Ok st →
  size (commits_with_changes st) ≤ length commits
  ∧ size (commits_with_changes st) ≤ length (rows st).
Proof.
  rewrite mine_commits_collected.
  destruct (collect _ commits) as [rs|] eqn:Hrs; [simpl|done].
  intros [= <-]. simpl. split.
  - transitivity (size (list_to_set (PyDriller.hash <$> commits) : gset string)).
    + apply subseteq_size. intros h Hh.
      apply elem_of_list_to_set in Hh. apply elem_of_list_to_set.
      by eapply collect_hashes.
    + rewrite size_distinct.
      etransitivity; [apply length_remove_dups_le|]. by rewrite length_fmap.
  - rewrite size_distinct.
    etransitivity; [apply length_remove_dups_le|]. apply length_omap_le.
Qed.

Lemma size_collected commits :
  NoDup (PyDriller.hash <$> commits) →
  ∀ rs, collect (commit_rows fromstring) commits = Ok rs →
        size (list_to_set (omap row_hash rs) : gset string)
        = length (filter (fun commit => commit_rows fromstring commit ≠ Ok [])
                    commits).
Proof.
  induction commits as [|commit commits IH]; intros Hnd rs; simpl.
  - by intros [= <-].
  - rewrite fmap_cons in Hnd. apply NoDup_cons in Hnd as [Hnew Hnd].
    destruct (commit_rows fromstring commit) as [r|] eqn:Hr; [simpl|done].
    destruct (collect _ commits) as [rs'|] eqn:Hrs; [simpl|done].
    intros [= <-].
    rewrite omap_app, list_to_set_app_L.
    rewrite (row_hash_record commit r)
      by (by apply (commit_rows_records fromstring)).
    rewrite list_to_set_replicate, filter_cons, Hr.
    destruct r as [|row r].
    + rewrite decide_False by auto. simpl.
      rewrite (left_id_L ∅ (∪)). by apply IH.
    + rewrite decide_True by done. simpl.
      rewrite size_union, size_singleton; [by rewrite (IH Hnd rs')|].
      apply disjoint_singleton_l. intros Hin. apply Hnew.
      apply elem_of_list_to_set in Hin. by eapply collect_hashes.
Qed.

(** X7. When the traversed commits have distinct hashes, the count of the
    summary is the number of commits that contribute at least one row. *)
Theorem summary_counts_commits commits st :
  NoDup (PyDriller.hash <$> commits) →
  mine_commits fromstring commits = Ok st →
  size (commits_with_changes st)
  = length (filter (fun commit => commit_rows fromstring commit ≠ Ok [])
              commits).
Proof.
  intros Hnd. rewrite mine_commits_collected.
  destruct (collect _ commits) as [rs|] eqn:Hrs; [simpl|done].
  intros [= <-]. simpl. by apply size_collected.
Qed.

(** X8. A modification of [pom.xml] whose text is the same before and
    after the commit contributes no record: the state is unchanged, unless
    the extractor raises on that text. *)
Theorem unchanged_text_is_silent commit st modification :
  PyDriller.source_code_before modification
  = PyDriller.source_code modification →
  mine_file fromstring commit st modification = Ok st
  ∨ ∃ e, mine_file fromstring commit st modification = Raise e
         ∧ _parse_pom_dependencies fromstring
             (PyDriller.source_code modification) = Raise e.
Proof.
  intros Hsame. rewrite mine_file_rows. unfold file_rows.
  destruct (decide (is_pom modification)); [|left; simpl; by rewrite extended_nil].
  rewrite Hsame.
  destruct (_parse_pom_dependencies _ _) as [deps|e]; simpl.
  - left. by rewrite emitted_rows_same, extended_nil.
  - right. by exists e.
Qed.

(** X9. A [pom.xml] that the commit creates (no text before) contributes
    one ["added"] record for every key of its snapshot and nothing else;
    a [pom.xml] that the commit deletes (no text after) contributes one
    ["removed"] record for every key of the old snapshot and nothing
    else. *)
Theorem created_and_deleted_files commit st modification deps :
  PyDriller.filename modification = "pom.xml" →
  (PyDriller.source_code_before modification = None →
   _parse_pom_dependencies fromstring (PyDriller.source_code modification)
   = Ok deps →
   mine_file fromstring commit st modification
   = Ok (extended commit (change_record commit "added" <$> set_iter (dom deps))
           st))
  ∧ (PyDriller.source_code modification = None →
     _parse_pom_dependencies fromstring
       (PyDriller.source_code_before modification) = Ok deps →
     mine_file fromstring commit st modification
     = Ok (extended commit
             (change_record commit "removed" <$> set_iter (dom deps)) st)).
Proof.
  intros Hname.
  assert (Hd1 : dom deps ∖ dom (∅ : snapshot) = dom deps) by set_solver.
  assert (Hd2 : dom (∅ : snapshot) ∖ dom deps = ∅) by set_solver.
  assert (Hd3 : dom (∅ : snapshot) ∩ dom deps = ∅) by set_solver.
  assert (Hd4 : dom deps ∩ dom (∅ : snapshot) = ∅) by set_solver.
  split; intros Hnone Hparse; rewrite mine_file_rows; unfold file_rows;
    rewrite decide_True by done; rewrite Hnone, Hparse; simpl;
    unfold emitted_rows; rewrite Hd1, Hd2, ?Hd3, ?Hd4, set_iter_empty; simpl;
    by rewrite ?app_nil_r.
Qed.

End Counting.

(** ** The snapshot of the structural extractor *)

Lemma loop_list_to_map namespace deps :
  ∀ d result,
    for_each (dependency_step namespace) d deps = Ok result →
    result = list_to_map (rev (omap (declared namespace) deps)) ∪ d.
Proof.
  induction deps as [|dep deps IH]; intros d result Hrun.
  - injection Hrun as <-. simpl. by rewrite (left_id_L ∅ (∪)).
  - apply loop_cons in Hrun. apply IH in Hrun. subst result. simpl.
    destruct (declared namespace dep) as [[k v]|]; [|done].
    simpl. rewrite list_to_map_app. simpl. rewrite insert_empty.
    rewrite <- (assoc_L (∪)). by rewrite <- insert_union_singleton_l.
Qed.

Lemma size_list_to_map_le (l : list (string * option string)) :
  size (list_to_map l : snapshot) ≤ length l.
Proof.
  induction l as [|[k v] l IH]; simpl; [done|].
  destruct ((list_to_map l : snapshot) !! k) as [w|] eqn:Hk.
  - rewrite map_size_insert_Some by (by eexists). by apply le_S.
  - rewrite map_size_insert_None by done. by apply le_n_S.
Qed.

(** X10. When the structural extractor returns, its snapshot is the
    dictionary of the pairs that the entries assign, a later entry
    replacing an earlier one with the same key; it has at most as many
    keys as the document has [dependency] elements. *)
Theorem snapshot_of_entries tree deps :
  tree_dependencies tree = Ok deps →
  let namespace := nsmap_None tree in
  let entries := findall (qualified namespace "dependency") tree in
  deps = list_to_map (rev (omap (declared namespace) entries))
  ∧ size deps ≤ length entries.
Proof.
  intros Hrun namespace entries. unfold tree_dependencies in Hrun.
  apply loop_list_to_map in Hrun. rewrite (right_id_L ∅ (∪)) in Hrun.
  split; [done|]. rewrite Hrun.
  etransitivity; [apply size_list_to_map_le|].
  rewrite length_rev. apply length_omap_le.
Qed.

(** ** Keys *)

Lemma first_char_lstrip s c :
  first_char (Py.lstrip s) = Some c → Py.isspace c = false.
Proof.
  induction s as [|a s IH]; simpl; [done|].
  destruct (Py.isspace a) eqn:Ha; [done|]. simpl. by intros [= <-].
Qed.

Lemma first_char_rstrip s c :
  first_char (Py.rstrip s) = Some c → first_char s = Some c.
Proof.
  destruct s as [|a s]; simpl; [done|].
  destruct (Py.rstrip s); [by destruct (Py.isspace a)|done].
Qed.

Lemma last_char_rstrip s c :
  last_char (Py.rstrip s) = Some c → Py.isspace c = false.
Proof.
  induction s as [|a s IH]; simpl; [done|].
  destruct (Py.rstrip s) as [|b r] eqn:Hr.
  - destruct (Py.isspace a) eqn:Ha; [done|]. simpl. by intros [= <-].
  - done.
Qed.

Lemma strip_trimmed s : trimmed (Py.strip s).
Proof.
  intros c [Hc|Hc].
  - apply first_char_rstrip in Hc. by apply first_char_lstrip in Hc.
  - by apply last_char_rstrip in Hc.
Qed.

Lemma declared_shape namespace dep k v :
  declared namespace dep = Some (k, v) →
  ∃ g a, k = dependency_key (Py.strip g) (Py.strip a)
         ∧ (v = None ∨ ∃ t, v = Some (Py.strip t)).
Proof.
  unfold declared, dependency_step, text_strip.
  destruct (find (qualified namespace "groupId") dep) as [group|]; [|done].
  destruct (find (qualified namespace "artifactId") dep) as [artifact|]; [|done].
  destruct (text group) as [g|]; [|done].
  destruct (text artifact) as [a|]; [|done].
  destruct (find (qualified namespace "version") dep) as [version|].
  - destruct (text version) as [t|]; [|done]. simpl.
    rewrite insert_empty, map_to_list_singleton. intros [= <- <-].
    exists g, a. split; [done|]. right. by exists t.
  - simpl. rewrite insert_empty, map_to_list_singleton. intros [= <- <-].
    exists g, a. split; [done|]. by left.
Qed.

(** X11. The keys of both extractors are [group:artifact] with a group
    and an artifact identifier that neither start nor end with white
    space, and their versions, when not null, neither start nor end with
    white space; the versions of the pattern-based extractor are never
    null. *)
Theorem snapshots_are_trimmed :
  (∀ tree deps k v,
     tree_dependencies tree = Ok deps → deps !! k = Some v →
     ∃ g a, k = g +:+ ":" +:+ a ∧ trimmed g ∧ trimmed a
            ∧ ∀ t, v = Some t → trimmed t)
  ∧ (∀ pom_xml_text k v,
       _parse_dependency_blocks pom_xml_text !! k = Some v →
       ∃ g a t, k = g +:+ ":" +:+ a ∧ v = Some t
                ∧ trimmed g ∧ trimmed a ∧ trimmed t).
Proof.
  split.
  - intros tree deps k v Hrun Hk. unfold tree_dependencies in Hrun.
    destruct (loop_keys _ _ _ _ _ _ Hrun Hk) as [Hempty|(dep & _ & _ & Hd)];
      [by rewrite lookup_empty in Hempty|].
    apply declared_shape in Hd as (g & a & -> & Hv).
    exists (Py.strip g), (Py.strip a).
    split_and!; [done|apply strip_trimmed..|].
    intros t ->. destruct Hv as [?|[t' [= ->]]]; [done|]. apply strip_trimmed.
  - intros [text|] k v; simpl; [|by rewrite lookup_empty].
    destruct (_ || _); [by rewrite lookup_empty|].
    intros [Hempty|(block & g & a & ver & _ & _ & _ & _ & -> & ->)]%blocks_keys;
      [by rewrite lookup_empty in Hempty|].
    exists (Py.strip g), (Py.strip a), (Py.strip ver).
    split_and!; try done; apply strip_trimmed.
Qed.

Lemma dependency_key_split g a g' a' :
  occurs ":" g = false → occurs ":" g' = false →
  dependency_key g a = dependency_key g' a' → g = g' ∧ a = a'.
Proof.
  unfold dependency_key. revert g'.
  induction g as [|c g IH]; intros [|c' g'] Hg Hg'; simpl in *.
  - by intros [= ->].
  - intros [= <- _]. done.
  - intros [= -> _]. done.
  - apply orb_false_iff in Hg as [_ Hg]. apply orb_false_iff in Hg' as [_ Hg'].
    intros [= -> Heq]. by destruct (IH g' Hg Hg' Heq) as [-> ->].
Qed.

(** X12. Two dependencies whose group identifiers hold no colon have the
    same key only if they have the same group and the same artifact
    identifier; with a colon in the group identifier, different pairs can
    share a key. *)
Theorem key_identifies_dependency :
  (∀ g a g' a',
     occurs ":" g = false → occurs ":" g' = false →
     dependency_key g a = dependency_key g' a' → g = g' ∧ a = a')
  ∧ (∀ g x a,
       dependency_key (g +:+ ":" +:+ x) a = dependency_key g (x +:+ ":" +:+ a)).
Proof.
  split; [exact dependency_key_split|].
  intros g x a. unfold dependency_key. by rewrite !append_assoc.
Qed.

(** ** The two extractors on canonical documents *)

Lemma foldl_assign_keys es k :
  is_Some (foldl assign ∅ es !! k) → k ∈ entry_key <$> es.
Proof.
  induction es as [|e es IH] using rev_ind.
  - simpl. rewrite lookup_empty. by intros [? ?].
  - rewrite foldl_app, fmap_app. simpl. unfold assign at 1.
    fold (entry_key e). intros Hk. apply elem_of_app.
    destruct (decide (entry_key e = k)) as [<-|Hne].
    + right. left.
    + rewrite lookup_insert_ne in Hk by done. left. by apply IH.
Qed.

Lemma foldl_assign_matched_filter es :
  NoDup (entry_key <$> es) →
  foldl assign_matched ∅ es
  = filter (fun kv => kv.2 ≠ None) (foldl assign ∅ es).
Proof.
  induction es as [|e es IH] using rev_ind; intros Hnd.
  - simpl. by rewrite map_filter_empty.
  - rewrite fmap_app in Hnd. apply NoDup_app in Hnd as (Hnd & Hfresh & _).
    rewrite !foldl_app. simpl. rewrite (IH Hnd).
    unfold assign_matched, assign. fold (entry_key e).
    destruct (ce_version e) as [v|]; simpl.
    + by rewrite map_filter_insert_True.
    + rewrite map_filter_insert_False by (simpl; auto).
      rewrite delete_id; [done|].
      apply eq_None_not_Some. intros Hk%foldl_assign_keys.
      apply (Hfresh _ Hk). left.
Qed.

(** X13. On the text of a canonical document whose entries have distinct
    keys, read by the parser as the tree of that document, the snapshot of
    the pattern-based extractor is the snapshot of the structural
    extractor without the keys of null version. *)
Theorem pattern_snapshot_is_versioned_part fromstring doc :
  canonical_ok doc = true →
  NoDup (entry_key <$> c_entries doc) →
  fromstring (render doc) = Ok (tree_of doc) →
  ∃ deps,
    _parse_pom_dependencies fromstring (Some (render doc)) = Ok deps
    ∧ _parse_dependency_blocks (Some (render doc))
      = filter (fun kv => kv.2 ≠ None) deps.
Proof.
  intros Hdoc Hnd Htree.
  exists (foldl assign ∅ (c_entries doc)). split.
  - rewrite (parse_parsed fromstring (render doc) (tree_of doc)); [|done|done].
    by apply tree_canonical.
  - rewrite blocks_canonical by done. by apply foldl_assign_matched_filter.
Qed.

(** ** What the patterns match *)

Lemma starts_with_sound p s r : Re.starts_with p s = Some r → s = p +:+ r.
Proof.
  revert s. induction p as [|a p IH]; intros s; simpl.
  - by intros [= ->].
  - destruct s as [|b s]; [done|]. case_decide; [|done]. subst b.
    intros Hr. by rewrite (IH _ Hr).
Qed.

Lemma lazy_until_sound lit s b r :
  Re.lazy_until lit s = Some (b, r) → s = b +:+ lit +:+ r.
Proof.
  revert b. induction s as [|c s IH]; intros b; simpl.
  - destruct (Re.starts_with lit "") as [rest|] eqn:Hs; [|done].
    intros [= <- <-]. simpl. by apply starts_with_sound.
  - destruct (Re.starts_with lit (String c s)) as [rest|] eqn:Hs.
    + intros [= <- <-]. simpl. by apply starts_with_sound.
    + destruct (Re.lazy_until lit s) as [[b' r']|]; [|done].
      intros [= <- <-]. simpl. by rewrite <- (IH b').
Qed.

(** The lazy scan stops at the first occurrence. *)
Lemma lazy_until_first lit pre x :
  ∃ b r, Re.lazy_until lit (pre +:+ lit +:+ x) = Some (b, r)
         ∧ String.length b ≤ String.length pre.
Proof.
  induction pre as [|c pre (b & r & IH & Hlen)].
  - exists "", x. split; [|done]. simpl.
    destruct lit as [|a lit]; simpl; [by destruct x|].
    rewrite decide_True by done. by rewrite starts_with_app.
  - simpl.
    destruct (Re.starts_with lit (String c (pre +:+ lit +:+ x))) as [rest|].
    + exists "", rest. split; [done|]. simpl. lia.
    + rewrite IH. exists (String c b), r. split; [done|]. simpl. lia.
Qed.

Lemma lazy_until_shortest lit s b r pre post :
  lit ≠ "" → Re.lazy_until lit s = Some (b, r) → b ≠ pre +:+ lit +:+ post.
Proof.
  intros Hlit Hs ->.
  pose proof (lazy_until_sound _ _ _ _ Hs) as ->.
  rewrite !append_assoc in Hs.
  destruct (lazy_until_first lit pre (post +:+ lit +:+ r)) as (b & r' & Hb & Hlen).
  rewrite Hb in Hs. injection Hs as -> _.
  rewrite !length_append in Hlen. destruct lit; [done|]. simpl in Hlen. lia.
Qed.

Lemma findall_go_sound s :
  ∀ skip b, b ∈ Re.findall_go skip s →
    (∃ pre post,
       s = pre +:+ "<dependency>" +:+ b +:+ "</dependency>" +:+ post)
    ∧ ∀ pre post, b ≠ pre +:+ "</dependency>" +:+ post.
Proof.
  induction s as [|c s IH]; intros skip b; simpl.
  - by intros ?%elem_of_nil.
  - assert (Hnext : ∀ k, b ∈ Re.findall_go k s →
              (∃ pre post, String c s = pre +:+ "<dependency>" +:+ b
                                        +:+ "</dependency>" +:+ post)
              ∧ ∀ pre post, b ≠ pre +:+ "</dependency>" +:+ post).
    { intros k Hb. destruct (IH k b Hb) as [(pre & post & ->) Hshort].
      split; [|done]. by exists (String c pre), post. }
    destruct skip as [|k]; [|apply Hnext].
    destruct (Re.match_dependency (String c s)) as [[block len]|] eqn:Hm;
      [|apply Hnext].
    intros [->|Hb]%elem_of_cons; [|by eapply Hnext].
    unfold Re.match_dependency in Hm.
    destruct (Re.starts_with "<dependency>" (String c s)) as [rest|] eqn:Hs;
      [|done].
    destruct (Re.lazy_until "</dependency>" rest) as [[b r]|] eqn:Hl; [|done].
    injection Hm as -> _. split.
    + exists "", r. apply starts_with_sound in Hs. rewrite Hs.
      by rewrite (lazy_until_sound _ _ _ _ Hl).
    + intros pre post.
      exact (lazy_until_shortest "</dependency>" rest block r pre post
               ltac:(done) Hl).
Qed.

(** X14. Every block that the block pattern finds stands in the text
    between [<dependency>] and [</dependency>], and holds no
    [</dependency>] itself: a block ends at the first closing tag. *)
Theorem blocks_are_delimited text block :
  block ∈ Re.findall_dependency text →
  (∃ pre post,
     text = pre +:+ "<dependency>" +:+ block +:+ "</dependency>" +:+ post)
  ∧ ∀ pre post, block ≠ pre +:+ "</dependency>" +:+ post.
Proof. apply findall_go_sound. Qed.

Lemma run_not_lt_sound s r rest :
  Re.run_not_lt s = (r, rest) → s = r +:+ rest ∧ plain r = true.
Proof.
  revert r. induction s as [|c s IH]; intros r; simpl.
  - by intros [= <- <-].
  - case_decide as Hc; [by intros [= <- <-]|].
    destruct (Re.run_not_lt s) as [r' rest'] eqn:Hs.
    intros [= <- <-]. destruct (IH r' eq_refl) as [-> Hr'].
    split; [done|]. simpl. rewrite Hr'.
    by rewrite bool_decide_eq_false_2.
Qed.

Lemma match_element_sound tag s r :
  Re.match_element tag s = Some r →
  r ≠ "" ∧ plain r = true
  ∧ ∃ post, s = ("<" +:+ tag +:+ ">") +:+ r +:+ ("</" +:+ tag +:+ ">") +:+ post.
Proof.
  unfold Re.match_element.
  destruct (Re.starts_with ("<" +:+ tag +:+ ">") s) as [rest|] eqn:Hs; [|done].
  destruct (Re.run_not_lt rest) as [run rest'] eqn:Hrun.
  destruct run as [|c run]; [done|].
  destruct (Re.starts_with ("</" +:+ tag +:+ ">") rest') as [post|] eqn:He;
    [|done].
  intros [= <-].
  apply starts_with_sound in Hs, He.
  apply run_not_lt_sound in Hrun as [-> Hplain].
  split; [done|]. split; [done|]. exists post. by rewrite Hs, He.
Qed.

(** X15. What an element pattern captures is not empty, holds no [<], and
    stands in the text between the start and the end tag of the element;
    so a group identifier, an artifact identifier or a version that the
    pattern-based extractor reads is never the text of an empty element
    nor of an element with children. *)
Theorem captured_text_is_plain tag s r :
  Re.search_element tag s = Some r →
  r ≠ "" ∧ plain r = true
  ∧ ∃ pre post,
      s = pre +:+ ("<" +:+ tag +:+ ">") +:+ r +:+ ("</" +:+ tag +:+ ">")
          +:+ post.
Proof.
  induction s as [|c s IH].
  - done.
  - change (Re.search_element tag (String c s))
      with (match Re.match_element tag (String c s) with
            | Some r => Some r
            | None => Re.search_element tag s
            end).
    destruct (Re.match_element tag (String c s)) as [r'|] eqn:Hm.
    + intros [= ->]. apply match_element_sound in Hm as (? & ? & post & Hs).
      split; [done|]. split; [done|]. by exists "", post.
    + intros (? & ? & pre & post & ->)%IH.
      split; [done|]. split; [done|]. by exists (String c pre), post.
Qed.

(** ** The entry point *)

(** X16. The script writes a report exactly when it is called with two
    arguments and the traversal of the repository they name returns; the
    report is then named after these two arguments.  Exactly when the number
    of arguments is another one, it prints the two lines of the usage,
    [Usage: python dependency-miner.py <owner> <repo>] and
    [Example: python dependency-miner.py pac4j dropwizard-pac4j], and
    nothing else, and exits with status 1. *)
Theorem main_reports_iff `{SetOrder} fromstring Repository argv :
  ((∃ stdout report,
      main fromstring Repository argv = Returned (Completed stdout report))
   ↔ ∃ program owner repo st,
       argv = [program; owner; repo]
       ∧ mine_commits fromstring (Repository (repo_url owner repo)) = Ok st)
  ∧ (∀ stdout report,
       main fromstring Repository argv = Returned (Completed stdout report) →
       ∃ program owner repo,
         argv = [program; owner; repo]
         ∧ file_name report = owner +:+ "_" +:+ repo +:+ "_dependency_commits.csv")
  ∧ (length argv ≠ 3
     ↔ main fromstring Repository argv
       = SystemExit
           ["Usage: python dependency-miner.py <owner> <repo>";
            "Example: python dependency-miner.py pac4j dropwizard-pac4j"]
           1)
  ∧ (∀ stdout status,
       main fromstring Repository argv = SystemExit stdout status →
       length argv ≠ 3).
Proof.
  assert (Hshape : length argv = 3 → ∃ p o r, argv = [p; o; r]).
  { destruct argv as [|p [|o [|r [|? ?]]]]; try done. by exists p, o, r. }
  unfold main. split_and!.
  - split.
    + intros (stdout & report & Hrun). case_decide as Hlen; [done|].
      destruct (Hshape ltac:(lia)) as (p & o & r & ->).
      injection Hrun as Hrun. simpl in Hrun. unfold mine_repository in Hrun.
      fold (repo_url o r) in Hrun.
      destruct (mine_commits _ _) as [st|] eqn:Hst; [|done].
      by exists p, o, r, st.
    + intros (p & o & r & st & -> & Hst). rewrite decide_False by (simpl; lia).
      simpl. unfold mine_repository. fold (repo_url o r). rewrite Hst.
      by eexists _, _.
  - intros stdout report Hrun. case_decide as Hlen; [done|].
    destruct (Hshape ltac:(lia)) as (p & o & r & ->).
    exists p, o, r. split; [done|].
    injection Hrun as Hrun. simpl in Hrun. unfold mine_repository in Hrun.
    destruct (mine_commits _ _) as [st|]; [|done].
    by injection Hrun as _ <-.
  - by case_decide.
  - intros stdout status. by case_decide.
Qed.

(** ** Instances *)

(** The rows of [sample_history]: one for the first commit, three for the
    second. *)
Lemma rows_of_traversed_commits_witness :
  ∃ st,
    mine_commits Lxml.fromstring sample_history = Ok st
    ∧ length (rows st) = 4
    ∧ Forall (fun row =>
                length row = length header
                ∧ ∃ commit change_type dep,
                    commit ∈ sample_history
                    ∧ row = [PyDriller.hash commit;
                             PyDriller.isoformat (PyDriller.committer_date commit);
                             PyDriller.name (PyDriller.author commit);
                             dep; change_type])
        (rows st).
Proof.
  destruct (mine_commits Lxml.fromstring sample_history) as [st|] eqn:Hrun;
    [|by vm_compute in Hrun].
  exists st. split; [done|]. split.
  - vm_compute in Hrun. by injection Hrun as <-.
  - by apply (rows_of_traversed_commits Lxml.fromstring).
Defined.

(** [sample_history] has two commits and four rows. *)
Lemma summary_count_bounds_witness :
  ∃ st,
    mine_commits Lxml.fromstring sample_history = Ok st
    ∧ size (commits_with_changes st) ≤ length sample_history
    ∧ size (commits_with_changes st) ≤ length (rows st).
Proof.
  destruct (mine_commits Lxml.fromstring sample_history) as [st|] eqn:Hrun;
    [|by vm_compute in Hrun].
  exists st. split; [done|].
  by apply (summary_count_bounds Lxml.fromstring).
Defined.

(** Both commits of [sample_history] contribute rows. *)
Lemma summary_counts_commits_witness :
  ∃ st,
    mine_commits Lxml.fromstring sample_history = Ok st
    ∧ size (commits_with_changes st) = 2.
Proof.
  destruct (mine_commits Lxml.fromstring sample_history) as [st|] eqn:Hrun;
    [|by vm_compute in Hrun].
  exists st. split; [done|].
  rewrite (summary_counts_commits Lxml.fromstring sample_history st).
  - vm_compute. reflexivity.
  - repeat constructor; [|apply not_elem_of_nil].
    by intros ?%list_elem_of_singleton.
  - done.
Defined.

(** A commit that touches [pom.xml] without changing its text. *)
Lemma unchanged_text_is_silent_witness :
  mine_file Lxml.fromstring
    (sample_commit "c5" "pom.xml" (Some pom_one) (Some pom_one))
    (mkMining [] ∅) (sample_file "pom.xml" (Some pom_one) (Some pom_one))
  = Ok (mkMining [] ∅).
Proof.
  destruct (unchanged_text_is_silent Lxml.fromstring
              (sample_commit "c5" "pom.xml" (Some pom_one) (Some pom_one))
              (mkMining [] ∅)
              (sample_file "pom.xml" (Some pom_one) (Some pom_one)) eq_refl)
    as [Hsilent|(e & _ & Hraise)]; [done|].
  by vm_compute in Hraise.
Defined.

(** A commit that creates [pom.xml] with one dependency. *)
Lemma created_and_deleted_files_witness :
  let commit := sample_commit "c1" "pom.xml" None (Some pom_one) in
  mine_file Lxml.fromstring commit (mkMining [] ∅)
    (sample_file "pom.xml" None (Some pom_one))
  = Ok (mkMining [change_record commit "added" "g:a"] {["c1"]}).
Proof.
  intros commit.
  rewrite (proj1 (created_and_deleted_files Lxml.fromstring commit
                    (mkMining [] ∅) (sample_file "pom.xml" None (Some pom_one))
                    {["g:a" := Some "1"]} eq_refl) eq_refl).
  - vm_compute. reflexivity.
  - vm_compute. reflexivity.
Defined.

(** The two entries of [tree_duplicate] assign the same key. *)
Lemma snapshot_of_entries_witness :
  tree_dependencies tree_duplicate = Ok {["g:a" := Some "1.0"]}
  ∧ size ({["g:a" := Some "1.0"]} : snapshot) ≤ 2.
Proof.
  split; [vm_compute; reflexivity|].
  apply (snapshot_of_entries tree_duplicate {["g:a" := Some "1.0"]}).
  vm_compute. reflexivity.
Defined.

(** [pom_canonical] has two entries with distinct keys. *)
Lemma pattern_snapshot_is_versioned_part_witness :
  ∃ deps,
    _parse_pom_dependencies Lxml.fromstring (Some (render pom_canonical))
    = Ok deps
    ∧ _parse_dependency_blocks (Some (render pom_canonical))
      = filter (fun kv => kv.2 ≠ None) deps.
Proof.
  apply pattern_snapshot_is_versioned_part.
  - vm_compute. reflexivity.
  - repeat constructor; [|apply not_elem_of_nil].
    intros Hin%list_elem_of_singleton. by vm_compute in Hin.
  - vm_compute. reflexivity.
Defined.

(** The block of [pom_one]. *)
Lemma blocks_are_delimited_witness :
  let block := "<groupId>g</groupId><artifactId>a</artifactId><version>1</version>" in
  Re.findall_dependency pom_one = [block]
  ∧ (∃ pre post,
       pom_one = pre +:+ "<dependency>" +:+ block +:+ "</dependency>" +:+ post)
  ∧ block ≠ "<groupId>g" +:+ "</dependency>" +:+ "".
Proof.
  intros block.
  assert (Hfind : Re.findall_dependency pom_one = [block])
    by (vm_compute; reflexivity).
  destruct (blocks_are_delimited pom_one block) as [Hin Hshort].
  { rewrite Hfind. left. }
  split; [done|]. split; [done|]. apply Hshort.
Defined.

(** The artifact identifier of the block of [pom_one]. *)
Lemma captured_text_is_plain_witness :
  let block := "<groupId>g</groupId><artifactId>a</artifactId><version>1</version>" in
  Re.search_element "artifactId" block = Some "a"
  ∧ plain "a" = true
  ∧ ∃ pre post,
      block = pre +:+ "<artifactId>" +:+ "a" +:+ "</artifactId>" +:+ post.
Proof.
  intros block.
  assert (Hfound : Re.search_element "artifactId" block = Some "a")
    by (vm_compute; reflexivity).
  destruct (captured_text_is_plain "artifactId" block "a" Hfound)
    as (_ & Hplain & Hin).
  split; [done|]. split; [done|]. exact Hin.
Defined.
